(** * The activity roster of app.py, with its sealed participant lists

    A shallow embedding of src/app.py: the two cipher helpers
    ([encrypt_email], [decrypt_email]), the seeded [activities] mapping and
    the three request handlers ([get_activities], [signup_for_activity],
    [unregister_from_activity]).

    The handlers call [cryptography.fernet.Fernet].  Its token recipe is
    written out here (URL-safe base64, PKCS7 padding, CBC chaining, the
    layout version, timestamp, IV, ciphertext, HMAC); the AES-128 block
    permutation and HMAC-SHA256 stay parameters ([Primitives]).  The clock
    and the entropy source the recipe reads are part of the state ([Env]).

    Python objects that are shared and mutated in place (the record of an
    activity, its participant list) live in a store and are named by their
    location. *)

From Stdlib Require Import NArith ZArith Strings.Byte Strings.String Lia.
From stdpp Require Import gmap strings list fin_maps.

Ltac Zify.zify_post_hook ::= Z.to_euclidean_division_equations.

(** ** Bytes and strings *)

Module Bytes.

#[global] Instance byte_eq_dec : EqDecision byte := fun a b =>
  match Byte.eqb a b as c return Byte.eqb a b = c -> {a = b} + {a <> b} with
  | true => fun H => left (Byte.byte_dec_bl a b H)
  | false => fun H => right (Byte.eqb_false H)
  end eq_refl.

(** The byte with value [n mod 256]. *)
Definition byte_of_N (n : N) : byte :=
  default "000"%byte (Byte.of_N (n mod 256)%N).

Definition byte_xor (a b : byte) : byte :=
  byte_of_N (N.lxor (Byte.to_N a) (Byte.to_N b)).

Definition xor_bytes (a b : list byte) : list byte :=
  zip_with byte_xor a b.

(** [str.encode()] and [bytes.decode()].  A [string] here is the sequence of
    the UTF-8 bytes of the Python string, so both directions are total. *)
Definition encode (s : string) : list byte := list_byte_of_string s.
Definition decode (b : list byte) : string := string_of_list_byte b.

(** [n.to_bytes(len, "big")], keeping the low [8 * len] bits (Python raises
    OverflowError beyond them; a clock does not get there with [len = 8]). *)
Fixpoint to_bytes_big (len : nat) (n : N) : list byte :=
  match len with
  | O => []
  | S k => to_bytes_big k (n / 256)%N ++ [byte_of_N n]
  end.

End Bytes.

(** ** base64.urlsafe_b64encode / urlsafe_b64decode *)

Module Base64.
Import Bytes.

Definition alphabet : list byte :=
  list_byte_of_string
    "ABCDEFGHIJKLMNOPQRSTUVWXYZabcdefghijklmnopqrstuvwxyz0123456789-_".

Definition pad_char : byte := "="%byte.

Definition char_of (n : N) : byte := nth (N.to_nat n) alphabet pad_char.

Fixpoint index_from (i : N) (c : byte) (l : list byte) : option N :=
  match l with
  | [] => None
  | x :: r => if Byte.eqb x c then Some i else index_from (N.succ i) c r
  end.

Definition index_of (c : byte) : option N := index_from 0%N c alphabet.

Fixpoint urlsafe_b64encode (data : list byte) : list byte :=
  match data with
  | [] => []
  | [a] =>
      let x := Byte.to_N a in
      [char_of (x / 4); char_of ((x mod 4) * 16); pad_char; pad_char]
  | [a; b] =>
      let x := Byte.to_N a in
      let y := Byte.to_N b in
      [char_of (x / 4); char_of ((x mod 4) * 16 + y / 16);
       char_of ((y mod 16) * 4); pad_char]
  | a :: b :: c :: rest =>
      let x := Byte.to_N a in
      let y := Byte.to_N b in
      let z := Byte.to_N c in
      char_of (x / 4) :: char_of ((x mod 4) * 16 + y / 16)
        :: char_of ((y mod 16) * 4 + z / 64) :: char_of (z mod 64)
        :: urlsafe_b64encode rest
  end%N.

(** One group of four characters; ["="] may only close the group. *)
Definition decode_quad (c1 c2 c3 c4 : byte) : option (list byte) :=
  s1 ← index_of c1;
  s2 ← index_of c2;
  if Byte.eqb c3 pad_char then
    if Byte.eqb c4 pad_char then Some [byte_of_N (s1 * 4 + s2 / 16)] else None
  else
    s3 ← index_of c3;
    if Byte.eqb c4 pad_char then
      Some [byte_of_N (s1 * 4 + s2 / 16); byte_of_N ((s2 mod 16) * 16 + s3 / 4)]
    else
      s4 ← index_of c4;
      Some [byte_of_N (s1 * 4 + s2 / 16); byte_of_N ((s2 mod 16) * 16 + s3 / 4);
            byte_of_N ((s3 mod 4) * 64 + s4)].

(** A strict decoder: [None] stands for [binascii.Error].  Python's decoder
    also skips characters outside the alphabet; on the output of
    [urlsafe_b64encode] the two agree. *)
Fixpoint urlsafe_b64decode (s : list byte) : option (list byte) :=
  match s with
  | [] => Some []
  | c1 :: c2 :: c3 :: c4 :: rest =>
      q ← decode_quad c1 c2 c3 c4;
      match rest with
      | [] => Some q
      | _ => if Nat.eqb (length q) 3
             then r ← urlsafe_b64decode rest; Some (q ++ r)
             else None
      end
  | _ => None
  end.

End Base64.

(** ** PKCS7 padding to 16-byte blocks *)

Module PKCS7.
Import Bytes.

Definition block_size : nat := 16.

Definition pad (data : list byte) : list byte :=
  let n := block_size - length data `mod` block_size in
  data ++ replicate n (byte_of_N (N.of_nat n)).

(** [None] stands for the unpadder's ValueError. *)
Definition unpad (data : list byte) : option (list byte) :=
  if bool_decide (length data `mod` block_size = 0) then
    match last data with
    | None => None
    | Some b =>
        let n := N.to_nat (Byte.to_N b) in
        if bool_decide (1 <= n <= block_size) then
          if forallb (Byte.eqb b) (drop (length data - n) data)
          then Some (take (length data - n) data)
          else None
        else None
    end
  else None.

End PKCS7.

(** ** The two primitives left abstract *)

Record Primitives := {
  aes_encrypt : list byte -> list byte -> list byte;
  aes_decrypt : list byte -> list byte -> list byte;
  hmac_sha256 : list byte -> list byte -> list byte
}.

(** What the proofs use of them: AES maps a block to a block and decryption
    undoes encryption under the same key; an HMAC-SHA256 tag has 32 bytes. *)
Definition lawful (P : Primitives) : Prop :=
  (forall k b, length b = 16 -> length (aes_encrypt P k b) = 16) /\
  (forall k b, length b = 16 -> aes_decrypt P k (aes_encrypt P k b) = b) /\
  (forall k m, length (hmac_sha256 P k m) = 32).

(** ** CBC mode *)

Module CBC.
Import Bytes.

Section Mode.
Context (P : Primitives) (key : list byte).

Definition blocks (data : list byte) : list (list byte) :=
  reshape (replicate (length data / 16) 16) data.

Fixpoint encrypt_blocks (prev : list byte) (bs : list (list byte)) : list byte :=
  match bs with
  | [] => []
  | b :: rest =>
      let c := aes_encrypt P key (xor_bytes b prev) in
      c ++ encrypt_blocks c rest
  end.

Fixpoint decrypt_blocks (prev : list byte) (bs : list (list byte)) : list byte :=
  match bs with
  | [] => []
  | c :: rest => xor_bytes (aes_decrypt P key c) prev ++ decrypt_blocks c rest
  end.

Definition encrypt (iv data : list byte) : list byte :=
  encrypt_blocks iv (blocks data).

(** [None] stands for the ValueError of a wrong IV or ciphertext length. *)
Definition decrypt (iv data : list byte) : option (list byte) :=
  if bool_decide (length iv = 16 /\ length data `mod` 16 = 0)
  then Some (decrypt_blocks iv (blocks data))
  else None.

End Mode.
End CBC.

(** ** Fernet tokens *)

Module Fernet.
Import Bytes Base64.

(** A key: the two 16-byte halves of the 32 decoded key bytes. *)
Record t := { signing_key : list byte; encryption_key : list byte }.

(** [Fernet(key)]: the key is URL-safe base64 of exactly 32 bytes; [None]
    stands for the ValueError the constructor raises otherwise. *)
Definition new (key : list byte) : option t :=
  raw ← urlsafe_b64decode key;
  if bool_decide (length raw = 32)
  then Some {| signing_key := take 16 raw; encryption_key := drop 16 raw |}
  else None.

Section Recipe.
Context (P : Primitives) (f : t).

(** [Fernet._encrypt_from_parts]. *)
Definition encrypt_from_parts (data : list byte) (current_time : N)
    (iv : list byte) : list byte :=
  let padded_data := PKCS7.pad data in
  let ciphertext := CBC.encrypt P (encryption_key f) iv padded_data in
  let basic_parts :=
    ["128"%byte] ++ to_bytes_big 8 current_time ++ iv ++ ciphertext in
  let hmac := hmac_sha256 P (signing_key f) basic_parts in
  urlsafe_b64encode (basic_parts ++ hmac).

(** [Fernet.decrypt] with no ttl; [None] stands for InvalidToken. *)
Definition decrypt (token : list byte) : option (list byte) :=
  data ← urlsafe_b64decode token;
  if bool_decide (head data = Some "128"%byte /\ 9 <= length data) then
    let n := length data in
    if bool_decide (hmac_sha256 P (signing_key f) (take (n - 32) data)
                    = drop (n - 32) data) then
      let iv := take 16 (drop 9 data) in
      let ciphertext := take (n - 32 - 25) (drop 25 data) in
      plaintext_padded ← CBC.decrypt P (encryption_key f) iv ciphertext;
      PKCS7.unpad plaintext_padded
    else None
  else None.

End Recipe.
End Fernet.

Import Bytes Base64.

(** ** The state of the process *)

(** What the operating system hands to the cipher: [clock n] is the answer
    of the [n]-th call to [int(time.time())], [entropy i] the [i]-th byte
    that [os.urandom] delivers; [reads] and [drawn] count what was used. *)
Record Env := {
  clock : nat -> N;
  entropy : nat -> byte;
  reads : nat;
  drawn : nat
}.

(** The location of an object in the store. *)
Abbreviation loc := nat.

(** The dict of one activity; ["participants"] holds a reference to a list. *)
Record ActivityInfo := {
  description : string;
  schedule : string;
  max_participants : Z;
  participants : loc
}.

(** [activities] is the module-level dict (name to activity dict object);
    [dicts] and [lists] are the objects allocated so far, by location;
    [fernet] is the module-level cipher object. *)
Record World := {
  activities : gmap string loc;
  dicts : list ActivityInfo;
  lists : list (list string);
  fernet : Fernet.t;
  env : Env
}.

(** [Fault] is a reference to an object that was never allocated (it has no
    Python counterpart); [ValueError] is what [list.remove] raises. *)
Inductive exn :=
| HTTPException (status_code : Z) (detail : string)
| InvalidToken
| ValueError
| Fault.

Inductive outcome (A : Type) :=
| Returns (a : A)
| Raises (e : exn).
Arguments Returns {A} a.
Arguments Raises {A} e.

(** Computations that read and write the world and may raise; what was
    written before an exception stays written. *)
Record M (A : Type) : Type := Do { run : World -> outcome A * World }.
Arguments Do {A} run.
Arguments run {A} m w.

#[global] Instance M_ret : MRet M := fun A a => Do (fun w => (Returns a, w)).
#[global] Instance M_bind : MBind M := fun A B f m => Do (fun w =>
  match run m w with
  | (Returns a, w') => run (f a) w'
  | (Raises e, w') => (Raises e, w')
  end).

Definition raise {A} (e : exn) : M A := Do (fun w => (Raises e, w)).

Definition with_env (e : Env) (w : World) : World :=
  {| activities := activities w; dicts := dicts w; lists := lists w;
     fernet := fernet w; env := e |}.
Definition with_dicts (d : list ActivityInfo) (w : World) : World :=
  {| activities := activities w; dicts := d; lists := lists w;
     fernet := fernet w; env := env w |}.
Definition with_lists (l : list (list string)) (w : World) : World :=
  {| activities := activities w; dicts := dicts w; lists := l;
     fernet := fernet w; env := env w |}.
Definition with_activities (a : gmap string loc) (w : World) : World :=
  {| activities := a; dicts := dicts w; lists := lists w;
     fernet := fernet w; env := env w |}.

(** [int(time.time())]. *)
Definition time_time : M N := Do (fun w =>
  let e := env w in
  (Returns (clock e (reads e)),
   with_env {| clock := clock e; entropy := entropy e;
               reads := S (reads e); drawn := drawn e |} w)).

(** [os.urandom(n)]. *)
Definition os_urandom (n : nat) : M (list byte) := Do (fun w =>
  let e := env w in
  (Returns (map (fun i => entropy e (drawn e + i)) (seq 0 n)),
   with_env {| clock := clock e; entropy := entropy e;
               reads := reads e; drawn := drawn e + n |} w)).

(** Allocation, reading and writing of dict and list objects. *)
Definition new_dict (i : ActivityInfo) : M loc := Do (fun w =>
  (Returns (length (dicts w)), with_dicts (dicts w ++ [i]) w)).
Definition new_list (l : list string) : M loc := Do (fun w =>
  (Returns (length (lists w)), with_lists (lists w ++ [l]) w)).
Definition load_dict (d : loc) : M ActivityInfo := Do (fun w =>
  match dicts w !! d with
  | Some i => (Returns i, w)
  | None => (Raises Fault, w)
  end).
Definition load_list (l : loc) : M (list string) := Do (fun w =>
  match lists w !! l with
  | Some v => (Returns v, w)
  | None => (Raises Fault, w)
  end).
Definition store_dict (d : loc) (i : ActivityInfo) : M unit := Do (fun w =>
  (Returns tt, with_dicts (<[d := i]> (dicts w)) w)).
Definition store_list (l : loc) (v : list string) : M unit := Do (fun w =>
  (Returns tt, with_lists (<[l := v]> (lists w)) w)).
Definition global_activities : M (gmap string loc) := Do (fun w =>
  (Returns (activities w), w)).
Definition the_fernet : M Fernet.t := Do (fun w => (Returns (fernet w), w)).

(** [list.remove(x)]: drops the first occurrence; [None] when there is none
    (Python raises ValueError). *)
Fixpoint remove_first (x : string) (l : list string) : option (list string) :=
  match l with
  | [] => None
  | y :: r => if bool_decide (y = x) then Some r
              else cons y <$> remove_first x r
  end.

(** A [for] loop that threads an accumulator. *)
Fixpoint for_each {A B} (f : B -> A -> M B) (acc : B) (l : list A) : M B :=
  match l with
  | [] => mret acc
  | x :: r => acc' ← f acc x; for_each f acc' r
  end.

(** ** app.py *)

Section App.
Context (P : Primitives).

(** [Fernet.encrypt]: the time is read, then 16 bytes of entropy are drawn
    for the IV. *)
Definition fernet_encrypt (data : list byte) : M (list byte) :=
  current_time ← time_time;
  iv ← os_urandom 16;
  f ← the_fernet;
  mret (Fernet.encrypt_from_parts P f data current_time iv).

Definition fernet_decrypt (token : list byte) : M (list byte) :=
  f ← the_fernet;
  match Fernet.decrypt P f token with
  | Some data => mret data
  | None => raise InvalidToken
  end.

(** app.py, lines 25-26. *)
Definition encrypt_email (email : string) : M string :=
  token ← fernet_encrypt (encode email); mret (decode token).

(** app.py, lines 28-29. *)
Definition decrypt_email (token : string) : M string :=
  data ← fernet_decrypt (encode token); mret (decode data).

(** One entry of the [activities] literal: the emails are sealed from left
    to right, the list and then the dict are built. *)
Definition new_activity (d s : string) (m : Z) (emails : list string) : M loc :=
  tokens ← mapM encrypt_email emails;
  l ← new_list tokens;
  new_dict {| description := d; schedule := s; max_participants := m;
              participants := l |}.

(** The body of the loop of [get_activities] (lines 105-107):
    [info.copy()] is a new dict with the fields of [info] (its participants
    field still names the stored list), which then gets a new list of the
    decrypted emails. *)
Definition get_activities_step (decrypted_activities : gmap string loc)
    (item : string * loc) : M (gmap string loc) :=
  let '(name, info) := item in
  src ← load_dict info;
  decrypted_info ← new_dict src;
  sealed ← load_list (participants src);
  plain ← mapM decrypt_email sealed;
  fresh_list ← new_list plain;
  store_dict decrypted_info
    {| description := description src; schedule := schedule src;
       max_participants := max_participants src;
       participants := fresh_list |};;
  mret (<[name := decrypted_info]> decrypted_activities).

(** app.py, lines 100-108.  The result maps each name to the location of
    the record built for it.  The loop takes the entries in the order of
    [map_to_list] where Python takes them in insertion order; the order
    only decides which locations the copies get. *)
Definition get_activities : M (gmap string loc) :=
  acts ← global_activities;
  for_each get_activities_step ∅ (map_to_list acts).

(** app.py, lines 111-137; the result is the message of the response. *)
Definition signup_for_activity (activity_name email : string) : M string :=
  acts ← global_activities;
  match acts !! activity_name with
  | None => raise (HTTPException 404 "Activity not found")
  | Some activity =>
      encrypted_email ← encrypt_email email;
      info ← load_dict activity;
      enrolled ← load_list (participants info);
      if bool_decide (encrypted_email ∈ enrolled) then
        raise (HTTPException 400 "Student is already signed up")
      else
        store_list (participants info) (enrolled ++ [encrypted_email]);;
        mret ("Signed up " +:+ email +:+ " for " +:+ activity_name)
  end.

(** app.py, lines 140-165. *)
Definition unregister_from_activity (activity_name email : string) : M string :=
  acts ← global_activities;
  match acts !! activity_name with
  | None => raise (HTTPException 404 "Activity not found")
  | Some activity =>
      encrypted_email ← encrypt_email email;
      info ← load_dict activity;
      enrolled ← load_list (participants info);
      if bool_decide (encrypted_email ∉ enrolled) then
        raise (HTTPException 400 "Student is not signed up for this activity")
      else
        match remove_first encrypted_email enrolled with
        | Some rest =>
            store_list (participants info) rest;;
            mret ("Unregistered " +:+ email +:+ " from " +:+ activity_name)
        | None => raise ValueError
        end
  end.

End App.

(** ** The seeded roster (app.py, lines 37-92) *)

(** The [activities] literal as a table: name, description, schedule,
    max_participants and the emails sealed into the participant list. *)
Definition seed : list (string * (string * string * Z * list string)) :=
  [ ("Chess Club",
     ("Learn strategies and compete in chess tournaments",
      "Fridays, 3:30 PM - 5:00 PM", 12%Z,
      ["michael@mergington.edu"; "daniel@mergington.edu"]));
    ("Programming Class",
     ("Learn programming fundamentals and build software projects",
      "Tuesdays and Thursdays, 3:30 PM - 4:30 PM", 20%Z,
      ["emma@mergington.edu"; "sophia@mergington.edu"]));
    ("Gym Class",
     ("Physical education and sports activities",
      "Mondays, Wednesdays, Fridays, 2:00 PM - 3:00 PM", 30%Z,
      ["john@mergington.edu"; "olivia@mergington.edu"]));
    ("Soccer Team",
     ("Join the school soccer team and compete in matches",
      "Tuesdays and Thursdays, 4:00 PM - 5:30 PM", 22%Z,
      ["liam@mergington.edu"; "noah@mergington.edu"]));
    ("Basketball Team",
     ("Practice and play basketball with the school team",
      "Wednesdays and Fridays, 3:30 PM - 5:00 PM", 15%Z,
      ["ava@mergington.edu"; "mia@mergington.edu"]));
    ("Art Club",
     ("Explore your creativity through painting and drawing",
      "Thursdays, 3:30 PM - 5:00 PM", 15%Z,
      ["amelia@mergington.edu"; "harper@mergington.edu"]));
    ("Drama Club",
     ("Act, direct, and produce plays and performances",
      "Mondays and Wednesdays, 4:00 PM - 5:30 PM", 20%Z,
      ["ella@mergington.edu"; "scarlett@mergington.edu"]));
    ("Math Club",
     ("Solve challenging problems and participate in math competitions",
      "Tuesdays, 3:30 PM - 4:30 PM", 10%Z,
      ["james@mergington.edu"; "benjamin@mergington.edu"]));
    ("Debate Team",
     ("Develop public speaking and argumentation skills",
      "Fridays, 4:00 PM - 5:30 PM", 12%Z,
      ["charlotte@mergington.edu"; "henry@mergington.edu"])) ].

Section Seed.
Context (P : Primitives).

Definition build_step (acc : gmap string loc)
    (entry : string * (string * string * Z * list string)) : M (gmap string loc) :=
  let '(name, (d, s, m, emails)) := entry in
  info ← new_activity P d s m emails;
  mret (<[name := info]> acc).

(** The evaluation of the literal, entry by entry, and the assignment to
    the global. *)
Definition build_activities : M unit :=
  acts ← for_each build_step ∅ seed;
  Do (fun w => (Returns tt, with_activities acts w)).

Definition blank (f : Fernet.t) (e : Env) : World :=
  {| activities := ∅; dicts := []; lists := []; fernet := f; env := e |}.

(** The world once the module is loaded with cipher [f]. *)
Definition startup (f : Fernet.t) (e : Env) : World :=
  snd (run build_activities (blank f e)).

End Seed.

(** ** The key (app.py, lines 21-22) *)

(** [Fernet.generate_key()]. *)
Definition generate_key (e : Env) : list byte * Env :=
  (urlsafe_b64encode (map (fun i => entropy e (drawn e + i)) (seq 0 32)),
   {| clock := clock e; entropy := entropy e;
      reads := reads e; drawn := drawn e + 32 |}).

(** [os.environ.get("HSMS_ENCRYPTION_KEY") or Fernet.generate_key()]: an
    unset or empty variable gives a generated key. *)
Definition encryption_key_of (variable : option string) (e : Env) : list byte * Env :=
  match variable with
  | None => generate_key e
  | Some s => if bool_decide (s = "") then generate_key e else (encode s, e)
  end.

(** Loading the module; [None] is the ValueError of [Fernet(ENCRYPTION_KEY)],
    with which the process does not start. *)
Definition boot (P : Primitives) (variable : option string) (e : Env) : option World :=
  let '(key, e') := encryption_key_of variable e in
  f ← Fernet.new key;
  Some (startup P f e').

(** ** A sample instance

    A block permutation and a tag function that satisfy [lawful], a key and
    an operating system, on which the statements below can be run. *)

Module Toy.

Definition key_block (k : list byte) : list byte :=
  take 16 (k ++ replicate 16 "000"%byte).
Definition toy_block (k b : list byte) : list byte := xor_bytes b (key_block k).
Definition toy_mac (k m : list byte) : list byte :=
  replicate 32 (foldr byte_xor "000"%byte (k ++ m)).
Definition primitives : Primitives :=
  {| aes_encrypt := toy_block; aes_decrypt := toy_block; hmac_sha256 := toy_mac |}.
Definition key : Fernet.t :=
  {| Fernet.signing_key := encode "0123456789abcdef";
     Fernet.encryption_key := encode "fedcba9876543210" |}.
Definition os : Env :=
  {| clock := fun n => (1700000000 + N.of_nat n)%N;
     entropy := fun i => byte_of_N (N.of_nat (i + i / 16));
     reads := 0; drawn := 0 |}.
Definition world : World := startup primitives key os.

(** An operating system whose clock stands still and whose entropy source
    repeats one byte: every IV drawn is the same. *)
Definition frozen_os : Env :=
  {| clock := fun _ => 1700000000%N; entropy := fun _ => "042"%byte;
     reads := 0; drawn := 0 |}.

End Toy.

(** ** Requests, and what the proofs observe of a world *)

Inductive request :=
| Signup (activity_name email : string)
| Unregister (activity_name email : string).

Definition handle (P : Primitives) (r : request) : M string :=
  match r with
  | Signup a e => signup_for_activity P a e
  | Unregister a e => unregister_from_activity P a e
  end.

Definition target (r : request) : string :=
  match r with Signup a _ | Unregister a _ => a end.

(** The IV that the next call of [encrypt_email] draws, and the operating
    system after that call. *)
Definition next_iv (e : Env) : list byte :=
  map (fun i => entropy e (drawn e + i)) (seq 0 16).

Definition advance (e : Env) : Env :=
  {| clock := clock e; entropy := entropy e;
     reads := S (reads e); drawn := drawn e + 16 |}.

(** The token [encrypt_email] returns under cipher [f] and system [e]. *)
Definition token_at (P : Primitives) (f : Fernet.t) (e : Env) (email : string) : string :=
  decode (Fernet.encrypt_from_parts P f (encode email) (clock e (reads e)) (next_iv e)).

(** What [decrypt_email] returns; [None] is InvalidToken. *)
Definition open_token (P : Primitives) (f : Fernet.t) (token : string) : option string :=
  decode <$> Fernet.decrypt P f (encode token).

(** The IV field of a token (bytes 9 to 24 of the decoded token). *)
Definition token_iv (token : string) : option (list byte) :=
  data ← urlsafe_b64decode (encode token);
  Some (take 16 (drop 9 data)).

(** An activity with its participant list read out of the store. *)
Record ActivityRecord := {
  r_description : string;
  r_schedule : string;
  r_max_participants : Z;
  r_participants : list string
}.

Definition deref (w : World) (d : loc) : option ActivityRecord :=
  info ← dicts w !! d;
  ps ← lists w !! participants info;
  Some {| r_description := description info; r_schedule := schedule info;
          r_max_participants := max_participants info; r_participants := ps |}.

(** A dict of activity objects as the JSON encoder sees it. *)
Definition view (w : World) (m : gmap string loc) : gmap string ActivityRecord :=
  omap (deref w) m.

(** The stored roster, participants sealed. *)
Definition roster (w : World) : gmap string ActivityRecord := view w (activities w).

Definition stored (w : World) := (activities w, dicts w, lists w, fernet w).

(** No reference of the index [m] dangles and no two of its activities
    share a participant list. *)
Definition tidy (m : gmap string loc) (w : World) : Prop :=
  (forall name d, m !! name = Some d -> is_Some (deref w d)) /\
  (forall n1 n2 d1 d2 i1 i2,
     m !! n1 = Some d1 -> m !! n2 = Some d2 ->
     dicts w !! d1 = Some i1 -> dicts w !! d2 = Some i2 ->
     participants i1 = participants i2 -> n1 = n2).

Definition wf (w : World) : Prop := tidy (activities w) w.

Definition with_participants (ps : list string) (r : ActivityRecord) : ActivityRecord :=
  {| r_description := r_description r; r_schedule := r_schedule r;
     r_max_participants := r_max_participants r; r_participants := ps |}.

(** A record with its participants decrypted, if every token opens. *)
Definition plain (P : Primitives) (f : Fernet.t) (r : ActivityRecord) : option ActivityRecord :=
  ps ← mapM (open_token P f) (r_participants r);
  Some (with_participants ps r).

(** Every stored token opens under the cipher of the world. *)
Definition valid (P : Primitives) (w : World) : Prop :=
  map_Forall (fun _ rec => is_Some (plain P (fernet w) rec)) (roster w).

Definition sealed (P : Primitives) (r : request) (w : World) : string :=
  match r with
  | Signup _ e | Unregister _ e => token_at P (fernet w) (env w) e
  end.

(** The world after one call of [encrypt_email]. *)
Definition settled (w : World) : World := with_env (advance (env w)) w.

(** [w] extends [w0]: same globals and system, and every object of [w0] is
    in [w] unchanged. *)
Definition ext (w0 w : World) : Prop :=
  activities w = activities w0 /\ fernet w = fernet w0 /\ env w = env w0 /\
  dicts w0 `prefix_of` dicts w /\ lists w0 `prefix_of` lists w.

(** [d] is a dict allocated after [w0], and so is its participant list. *)
Definition fresh_copy (w0 w : World) (d : loc) : Prop :=
  length (dicts w0) <= d /\
  exists info, dicts w !! d = Some info /\ length (lists w0) <= participants info.

Fixpoint seal_all (P : Primitives) (f : Fernet.t) (e : Env) (emails : list string)
    : list string :=
  match emails with
  | [] => []
  | x :: rest => token_at P f e x :: seal_all P f (advance e) rest
  end.

(** The roster that evaluating a table of activities builds. *)
Fixpoint sealed_seed (P : Primitives) (f : Fernet.t) (e : Env)
    (table : list (string * (string * string * Z * list string)))
    : list (string * ActivityRecord) :=
  match table with
  | [] => []
  | (name, (d, s, m, emails)) :: rest =>
      (name, {| r_description := d; r_schedule := s; r_max_participants := m;
                r_participants := seal_all P f e emails |})
      :: sealed_seed P f (Nat.iter (length emails) advance e) rest
  end.

Definition to_json (table : list (string * (string * string * Z * list string)))
    : list (string * ActivityRecord) :=
  map (fun '(name, (d, s, m, emails)) =>
         (name, {| r_description := d; r_schedule := s; r_max_participants := m;
                   r_participants := emails |})) table.

(** The seeded roster with plaintext emails. *)
Definition seed_json : gmap string ActivityRecord := list_to_map (to_json seed).

(** The worlds that signup and unregister requests lead to from start-up. *)
Inductive reachable (P : Primitives) (f : Fernet.t) (e : Env) : World -> Prop :=
| reach_startup : reachable P f e (startup P f e)
| reach_request w r :
    reachable P f e w -> reachable P f e (snd (run (handle P r) w)).

(** No token of the list carries the IV [iv]. *)
Definition iv_unused (iv : list byte) (tokens : list string) : Prop :=
  Forall (fun t => token_iv t <> Some iv) tokens.

Definition michael : string := "michael@mergington.edu".
Definition daniel : string := "daniel@mergington.edu".

#[global] Arguments encrypt_email : simpl never.
#[global] Arguments token_at : simpl never.
#[global] Arguments advance : simpl never.

(** * Proofs

    ** Bytes and base64 *)

Lemma to_N_lt (b : byte) : (Byte.to_N b < 256)%N.
Proof. pose proof (Byte.to_N_bounded b). lia. Qed.

Lemma byte_of_to_N (b : byte) : byte_of_N (Byte.to_N b) = b.
Proof.
  unfold byte_of_N. rewrite N.mod_small by apply to_N_lt.
  by rewrite Byte.of_to_N.
Qed.

Lemma to_N_byte_of_N (n : N) : (n < 256)%N -> Byte.to_N (byte_of_N n) = n.
Proof.
  intros Hn. unfold byte_of_N. rewrite N.mod_small by done.
  destruct (Byte.of_N n) as [b|] eqn:E.
  - by apply Byte.to_of_N.
  - pose proof (Byte.to_of_N_option_map n) as H. rewrite E in H. simpl in H.
    destruct (N.leb_spec n 255); [discriminate | lia].
Qed.

Lemma index_of_char_of (n : N) : (n < 64)%N -> index_of (char_of n) = Some n.
Proof.
  intros Hn.
  assert (Hall : forallb (fun k => bool_decide (index_of (char_of (N.of_nat k)) = Some (N.of_nat k))) (seq 0 64) = true)
    by (vm_compute; reflexivity).
  rewrite forallb_forall in Hall.
  assert (Hin : In (N.to_nat n) (seq 0 64)) by (apply in_seq; lia).
  apply Hall in Hin. rewrite N2Nat.id in Hin.
  by apply bool_decide_eq_true in Hin.
Qed.

Lemma char_of_not_pad (n : N) : (n < 64)%N -> Byte.eqb (char_of n) pad_char = false.
Proof.
  intros Hn.
  assert (Hall : forallb (fun k => negb (Byte.eqb (char_of (N.of_nat k)) pad_char)) (seq 0 64) = true)
    by (vm_compute; reflexivity).
  rewrite forallb_forall in Hall.
  specialize (Hall (N.to_nat n)). rewrite N2Nat.id in Hall.
  apply negb_true_iff, Hall. apply in_seq. lia.
Qed.

Lemma pad_eqb : Byte.eqb pad_char pad_char = true.
Proof. reflexivity. Qed.

Lemma decode_quad_3 (a b c : byte) :
  let x := Byte.to_N a in let y := Byte.to_N b in let z := Byte.to_N c in
  decode_quad (char_of (x / 4)) (char_of ((x mod 4) * 16 + y / 16))
              (char_of ((y mod 16) * 4 + z / 64)) (char_of (z mod 64))
  = Some [a; b; c].
Proof.
  intros x y z.
  pose proof (to_N_lt a). pose proof (to_N_lt b). pose proof (to_N_lt c).
  unfold decode_quad.
  rewrite !index_of_char_of by (subst x y z; lia). simpl.
  rewrite !char_of_not_pad by (subst x y z; lia).
  rewrite <- (byte_of_to_N a), <- (byte_of_to_N b), <- (byte_of_to_N c) at 1.
  fold x y z. repeat f_equal; lia.
Qed.

Lemma decode_quad_2 (a b : byte) :
  let x := Byte.to_N a in let y := Byte.to_N b in
  decode_quad (char_of (x / 4)) (char_of ((x mod 4) * 16 + y / 16))
              (char_of ((y mod 16) * 4)) pad_char
  = Some [a; b].
Proof.
  intros x y.
  pose proof (to_N_lt a). pose proof (to_N_lt b).
  unfold decode_quad.
  rewrite !index_of_char_of by (subst x y; lia). simpl.
  rewrite !char_of_not_pad by (subst x y; lia). rewrite ?pad_eqb.
  rewrite <- (byte_of_to_N a), <- (byte_of_to_N b) at 1.
  fold x y. repeat f_equal; lia.
Qed.

Lemma decode_quad_1 (a : byte) :
  let x := Byte.to_N a in
  decode_quad (char_of (x / 4)) (char_of ((x mod 4) * 16)) pad_char pad_char
  = Some [a].
Proof.
  intros x.
  pose proof (to_N_lt a).
  unfold decode_quad.
  rewrite !index_of_char_of by (subst x; lia). simpl.
  rewrite ?pad_eqb.
  rewrite <- (byte_of_to_N a) at 1.
  fold x. repeat f_equal; lia.
Qed.

Lemma triple_ind (P : list byte -> Prop) :
  P [] -> (forall a, P [a]) -> (forall a b, P [a; b]) ->
  (forall a b c r, P r -> P (a :: b :: c :: r)) ->
  forall l, P l.
Proof.
  intros H0 H1 H2 H3 l.
  cut (P l /\ (forall a, P (a :: l)) /\ (forall a b, P (a :: b :: l))).
  { tauto. }
  induction l as [|x l (IH0 & IH1 & IH2)]; [by auto |].
  split; [apply IH1 | split; [intros a; apply IH2 | intros a b; by apply H3]].
Qed.

Lemma urlsafe_b64_roundtrip (data : list byte) :
  urlsafe_b64decode (urlsafe_b64encode data) = Some data.
Proof.
  induction data as [|a|a b|a b c r IH] using triple_ind.
  - reflexivity.
  - cbn [urlsafe_b64encode urlsafe_b64decode]. by rewrite decode_quad_1.
  - cbn [urlsafe_b64encode urlsafe_b64decode]. by rewrite decode_quad_2.
  - cbn [urlsafe_b64encode urlsafe_b64decode]. rewrite decode_quad_3.
    cbn [mbind option_bind]. fold urlsafe_b64encode. 
    destruct (urlsafe_b64encode r) eqn:E.
    + destruct r as [|? [|? [|? ?]]]; simpl in E; try discriminate. reflexivity.
    + rewrite IH. reflexivity.
Qed.

(** ** Padding, chaining and the token recipe *)

Lemma byte_xor_cancel (a b : byte) : byte_xor (byte_xor a b) b = a.
Proof.
  assert (H : forallb (fun x => forallb (fun y =>
              bool_decide (byte_xor (byte_xor x y) y = x))
              (map byte_of_N (map N.of_nat (seq 0 256))))
              (map byte_of_N (map N.of_nat (seq 0 256))) = true)
    by (vm_compute; reflexivity).
  assert (Hin : forall c : byte, In c (map byte_of_N (map N.of_nat (seq 0 256)))).
  { intros c. rewrite <- (byte_of_to_N c). apply in_map.
    rewrite <- (N2Nat.id (Byte.to_N c)). apply in_map.
    apply in_seq. pose proof (to_N_lt c). lia. }
  rewrite forallb_forall in H. specialize (H a (Hin a)).
  rewrite forallb_forall in H. specialize (H b (Hin b)).
  by apply bool_decide_eq_true in H.
Qed.

Lemma length_xor_bytes (a b : list byte) :
  length (xor_bytes a b) = min (length a) (length b).
Proof. apply length_zip_with. Qed.

Lemma xor_bytes_cancel (a b : list byte) :
  length a = length b -> xor_bytes (xor_bytes a b) b = a.
Proof.
  revert b. induction a as [|x a IH]; intros [|y b] Hl; simplify_eq/=; [done|].
  rewrite byte_xor_cancel. f_equal. by apply IH.
Qed.

Module PKCS7_facts.
Import PKCS7.

Lemma length_pad (d : list byte) : length (pad d) `mod` 16 = 0.
Proof.
  unfold pad, block_size. rewrite length_app, length_replicate.
  pose proof (Nat.mod_upper_bound (length d) 16 ltac:(lia)).
  pose proof (Nat.div_mod_eq (length d) 16).
  replace (length d + (16 - length d `mod` 16))
    with ((length d / 16 + 1) * 16) by lia.
  apply Nat.Div0.mod_mul.
Qed.

Lemma unpad_pad (d : list byte) : unpad (pad d) = Some d.
Proof.
  unfold unpad. rewrite bool_decide_eq_true_2 by apply length_pad.
  unfold pad, block_size.
  set (n := 16 - length d `mod` 16).
  assert (Hn : 1 <= n <= 16).
  { pose proof (Nat.mod_upper_bound (length d) 16 ltac:(lia)). subst n; lia. }
  set (x := byte_of_N (N.of_nat n)).
  assert (Hlast : last (d ++ replicate n x) = Some x).
  { destruct n as [|m]; [lia|].
    by rewrite replicate_S_end, app_assoc, last_snoc. }
  rewrite Hlast. subst x.
  rewrite to_N_byte_of_N by lia. rewrite Nat2N.id.
  rewrite bool_decide_eq_true_2 by done.
  rewrite length_app, length_replicate.
  replace (length d + n - n) with (length d) by lia.
  rewrite drop_app_length, take_app_length.
  replace (forallb _ _) with true; [done|].
  symmetry. apply forallb_forall. intros x Hx%list_elem_of_In.
  apply elem_of_replicate in Hx as [-> _]. by apply Byte.byte_dec_lb.
Qed.
End PKCS7_facts.

Lemma whole_blocks (n : nat) : n `mod` 16 = 0 -> n / 16 * 16 = n.
Proof. intros H. pose proof (Nat.div_mod_eq n 16). lia. Qed.

Module CBC_facts.
Import CBC.
Section Laws.
Context (P : Primitives) (HP : lawful P) (key : list byte).

Lemma blocks_cons (c r : list byte) :
  length c = 16 -> blocks (c ++ r) = c :: blocks r.
Proof.
  intros Hc. unfold blocks. rewrite length_app, Hc.
  replace ((16 + length r) / 16) with (S (length r / 16))
    by (symmetry; apply (Nat.div_add_l 1 16 (length r)); lia).
  cbn [replicate reshape].
  by rewrite take_app_length', drop_app_length' by done.
Qed.

Lemma blocks_nil : blocks [] = [].
Proof. reflexivity. Qed.

Lemma reshape_whole (k : nat) (d : list byte) :
  length d = k * 16 ->
  Forall (fun b => length b = 16) (reshape (replicate k 16) d).
Proof.
  revert d. induction k as [|k IH]; intros d Hd; cbn [replicate reshape].
  - constructor.
  - constructor.
    + rewrite length_take. lia.
    + apply IH. rewrite length_drop. lia.
Qed.

Lemma blocks_spec (d : list byte) :
  length d `mod` 16 = 0 ->
  mjoin (blocks d) = d /\ Forall (fun b => length b = 16) (blocks d).
Proof.
  intros Hd. unfold blocks. split.
  - apply join_reshape. rewrite sum_list_replicate. by apply whole_blocks.
  - apply reshape_whole. symmetry. by apply whole_blocks.
Qed.

Lemma decrypt_encrypt_blocks (bs : list (list byte)) (prev : list byte) :
  length prev = 16 -> Forall (fun b => length b = 16) bs ->
  length (encrypt_blocks P key prev bs) = length bs * 16 /\
  decrypt_blocks P key prev (blocks (encrypt_blocks P key prev bs)) = mjoin bs.
Proof.
  destruct HP as (Hlen & Hinv & _).
  revert prev. induction bs as [|b bs IH]; intros prev Hp Hall.
  - by split.
  - apply Forall_cons in Hall as [Hb Hall]. cbn [encrypt_blocks].
    assert (Hx : length (xor_bytes b prev) = 16)
      by (rewrite length_xor_bytes; lia).
    pose proof (Hlen key _ Hx) as Hc.
    destruct (IH _ Hc Hall) as [IH1 IH2]. split.
    + rewrite length_app. simpl. lia.
    + rewrite blocks_cons by done. cbn [decrypt_blocks].
      rewrite Hinv by done. rewrite xor_bytes_cancel by lia.
      by rewrite IH2.
Qed.

Lemma cbc_decrypt_encrypt (iv d : list byte) :
  length iv = 16 -> length d `mod` 16 = 0 ->
  decrypt P key iv (encrypt P key iv d) = Some d.
Proof.
  intros Hiv Hd. destruct (blocks_spec d Hd) as [Hj Hall].
  destruct (decrypt_encrypt_blocks (blocks d) iv Hiv Hall) as [H1 H2].
  unfold decrypt, encrypt.
  rewrite bool_decide_eq_true_2
    by (split; [done | rewrite H1; apply Nat.Div0.mod_mul]).
  by rewrite H2, Hj.
Qed.
End Laws.
End CBC_facts.

Module Fernet_facts.
Import Fernet.
Section Laws.
Context (P : Primitives) (HP : lawful P) (f : Fernet.t).

Lemma length_to_bytes_big (len : nat) (n : N) : length (to_bytes_big len n) = len.
Proof.
  revert n. induction len as [|k IH]; intros n; [done|].
  cbn [to_bytes_big]. rewrite length_app, IH. simpl. lia.
Qed.

Lemma fernet_decrypt_encrypt (data : list byte) (now : N) (iv : list byte) :
  length iv = 16 ->
  decrypt P f (encrypt_from_parts P f data now iv) = Some data.
Proof.
  intros Hiv. unfold decrypt, encrypt_from_parts.
  rewrite urlsafe_b64_roundtrip. cbn [mbind option_bind].
  set (ct := CBC.encrypt P (encryption_key f) iv (PKCS7.pad data)).
  set (ts := to_bytes_big 8 now).
  set (bp := ["128"%byte] ++ ts ++ iv ++ ct).
  set (h := hmac_sha256 P (signing_key f) bp).
  assert (Hts : length ts = 8) by apply length_to_bytes_big.
  assert (Hh : length h = 32) by (destruct HP as (_ & _ & Hm); apply Hm).
  assert (Hbp : length bp = 25 + length ct).
  { subst bp. rewrite !length_app. simpl. lia. }
  rewrite bool_decide_eq_true_2.
  2:{ split; [done|]. rewrite length_app. lia. }
  rewrite length_app, Hh.
  replace (length bp + 32 - 32) with (length bp) by lia.
  rewrite take_app_length, drop_app_length.
  rewrite bool_decide_eq_true_2 by done.
  replace (take 16 (drop 9 (bp ++ h))) with iv.
  2:{ subst bp. change (["128"%byte] ++ ts ++ iv ++ ct) with ("128"%byte :: ts ++ iv ++ ct).
      cbn [app]. rewrite <- !app_assoc.
      change 9 with (S 8). cbn [drop].
      rewrite drop_app_length' by done.
      by rewrite take_app_length' by done. }
  rewrite Hbp. replace (25 + length ct - 25) with (length ct) by lia.
  replace (take (length ct) (drop 25 (bp ++ h))) with ct.
  2:{ clear Hbp. subst bp. cbn [app]. rewrite <- !app_assoc.
      change 25 with (S (8 + 16)). cbn [drop].
      rewrite <- drop_drop.
      rewrite drop_app_length' by done.
      rewrite drop_app_length' by done.
      by rewrite take_app_length. }
  subst ct. rewrite (CBC_facts.cbc_decrypt_encrypt P HP) by (done || apply PKCS7_facts.length_pad).
  cbn [mbind option_bind]. apply PKCS7_facts.unpad_pad.
Qed.
End Laws.
End Fernet_facts.

(** ** Running the handlers *)

Section Runs.
Context (P : Primitives).

Lemma run_bind {A B} (m : M A) (k : A -> M B) (w : World) :
  run (m ≫= k) w =
  match run m w with
  | (Returns a, w') => run (k a) w'
  | (Raises e, w') => (Raises e, w')
  end.
Proof. reflexivity. Qed.

Lemma run_encrypt_email (email : string) (w : World) :
  run (encrypt_email P email) w =
  (Returns (token_at P (fernet w) (env w) email), with_env (advance (env w)) w).
Proof. reflexivity. Qed.

Lemma run_decrypt_email (token : string) (w : World) :
  run (decrypt_email P token) w =
  match open_token P (fernet w) token with
  | Some s => (Returns s, w)
  | None => (Raises InvalidToken, w)
  end.
Proof.
  unfold open_token, decrypt_email, fernet_decrypt. cbn.
  by destruct (Fernet.decrypt P (fernet w) (encode token)).
Qed.

Lemma unknown_activity (w : World) (r : request) :
  activities w !! target r = None ->
  run (handle P r) w = (Raises (HTTPException 404 "Activity not found"), w).
Proof.
  intros H. destruct r as [a e|a e]; cbn in *; by rewrite H.
Qed.

Lemma failed_request (w w' : World) (r : request) (e : exn) :
  run (handle P r) w = (Raises e, w') -> stored w' = stored w.
Proof.
  destruct r as [a em|a em]; cbn.
  - destruct (activities w !! a) as [d|]; cbn; [|by intros [= _ <-]].
    rewrite run_bind, run_encrypt_email; cbn.
    destruct (dicts w !! d) as [info|]; cbn; [|by intros [= _ <-]].
    destruct (lists w !! participants info) as [ps|]; cbn; [|by intros [= _ <-]].
    case_bool_decide; cbn; [by intros [= _ <-] | discriminate].
  - destruct (activities w !! a) as [d|]; cbn; [|by intros [= _ <-]].
    rewrite run_bind, run_encrypt_email; cbn.
    destruct (dicts w !! d) as [info|]; cbn; [|by intros [= _ <-]].
    destruct (lists w !! participants info) as [ps|]; cbn; [|by intros [= _ <-]].
    case_bool_decide; cbn; [by intros [= _ <-] |].
    destruct (remove_first _ ps); cbn; [discriminate | by intros [= _ <-]].
Qed.
End Runs.

(** ** What a successful request changes *)

Section Handlers.
Context (P : Primitives).

Lemma handled (w w' : World) (r : request) (msg : string) :
  run (handle P r) w = (Returns msg, w') ->
  exists d info ps ps',
    activities w !! target r = Some d /\
    dicts w !! d = Some info /\
    lists w !! participants info = Some ps /\
    w' = with_lists (<[participants info := ps']> (lists w)) (settled w) /\
    match r with
    | Signup _ _ => (sealed P r w ∉ ps) /\ ps' = ps ++ [sealed P r w]
    | Unregister _ _ => (sealed P r w ∈ ps) /\ remove_first (sealed P r w) ps = Some ps'
    end.
Proof.
  destruct r as [a em|a em]; cbn.
  - destruct (activities w !! a) as [d|] eqn:Ha; cbn; [|by intros [=]].
    rewrite run_bind, run_encrypt_email; cbn.
    destruct (dicts w !! d) as [info|] eqn:Hd; cbn; [|by intros [=]].
    destruct (lists w !! participants info) as [ps|] eqn:Hl; cbn; [|by intros [=]].
    case_bool_decide; cbn; [by intros [=]|]. intros [= _ <-].
    by exists d, info, ps, (ps ++ [token_at P (fernet w) (env w) em]).
  - destruct (activities w !! a) as [d|] eqn:Ha; cbn; [|by intros [=]].
    rewrite run_bind, run_encrypt_email; cbn.
    destruct (dicts w !! d) as [info|] eqn:Hd; cbn; [|by intros [=]].
    destruct (lists w !! participants info) as [ps|] eqn:Hl; cbn; [|by intros [=]].
    case_bool_decide as Hin; cbn; [by intros [=]|].
    destruct (remove_first _ ps) as [rest|] eqn:Hr; cbn; [|by intros [=]].
    intros [= _ <-]. exists d, info, ps, rest. repeat split; try done.
Qed.

Lemma deref_with_lists_ne (w : World) (d l : loc) (v : list string) (info : ActivityInfo) :
  dicts w !! d = Some info -> participants info <> l ->
  deref (with_lists (<[l := v]> (lists w)) (settled w)) d = deref w d.
Proof.
  intros Hd Hne. unfold deref; cbn. rewrite Hd; cbn.
  by rewrite list_lookup_insert_ne.
Qed.

Lemma deref_with_lists_eq (w : World) (d : loc) (v ps : list string) (info : ActivityInfo) :
  dicts w !! d = Some info -> lists w !! participants info = Some ps ->
  deref (with_lists (<[participants info := v]> (lists w)) (settled w)) d
  = with_participants v <$> deref w d.
Proof.
  intros Hd Hl. unfold deref; cbn. rewrite Hd; cbn. rewrite Hl; cbn.
  rewrite list_lookup_insert_eq by (by eapply lookup_lt_Some). done.
Qed.

Lemma frame (w w' : World) (r : request) (msg : string) :
  wf w -> run (handle P r) w = (Returns msg, w') ->
  dom (roster w') = dom (roster w) /\
  (forall other, other <> target r -> roster w' !! other = roster w !! other) /\
  exists rec ps,
    roster w !! target r = Some rec /\
    roster w' !! target r = Some (with_participants ps rec).
Proof.
  intros [Hok Hsep] Hrun.
  destruct (handled _ _ _ _ Hrun) as (d & info & ps & ps' & Ha & Hd & Hl & -> & _).
  assert (Hother : forall other, other <> target r ->
    roster (with_lists (<[participants info:=ps']> (lists w)) (settled w)) !! other
    = roster w !! other).
  { intros other Hne. unfold roster, view. rewrite !lookup_omap. cbn.
    destruct (activities w !! other) as [d2|] eqn:Ha2; cbn; [|done].
    destruct (Hok _ _ Ha2) as [rec2 Hrec2].
    destruct (dicts w !! d2) as [i2|] eqn:Hd2;
      [|by unfold deref in Hrec2; rewrite Hd2 in Hrec2].
    apply (deref_with_lists_ne _ _ _ _ i2); [done|].
    intros Heq. apply Hne. by eapply (Hsep other (target r)). }
  assert (Hself :
    roster (with_lists (<[participants info:=ps']> (lists w)) (settled w)) !! target r
    = with_participants ps' <$> roster w !! target r).
  { unfold roster, view. rewrite !lookup_omap. cbn. rewrite Ha. cbn.
    by eapply deref_with_lists_eq. }
  split; [|split; [done|]].
  - apply set_eq. intros x. rewrite !elem_of_dom.
    destruct (decide (x = target r)) as [->|Hne].
    + rewrite Hself. by rewrite fmap_is_Some.
    + by rewrite Hother.
  - destruct (Hok _ _ Ha) as [rec Hrec].
    exists rec, ps'. rewrite Hself.
    unfold roster, view. rewrite lookup_omap, Ha. cbn. by rewrite Hrec.
Qed.
End Handlers.

(** ** Worlds that only grow *)

Section Growth.
Context (P : Primitives).

Lemma ext_refl (w : World) : ext w w.
Proof. by repeat split. Qed.

Lemma ext_trans (w1 w2 w3 : World) : ext w1 w2 -> ext w2 w3 -> ext w1 w3.
Proof.
  intros (?&?&?&?&?) (?&?&?&?&?). repeat split; try congruence; by etrans.
Qed.

Lemma deref_ext (w0 w : World) (d : loc) (rec : ActivityRecord) :
  ext w0 w -> deref w0 d = Some rec -> deref w d = Some rec.
Proof.
  intros (_&_&_&Hd&Hl). unfold deref.
  destruct (dicts w0 !! d) as [info|] eqn:E; [|done].
  rewrite (prefix_lookup_Some _ _ _ _ E Hd). cbn [mbind option_bind].
  destruct (lists w0 !! participants info) as [ps|] eqn:E2; [|done].
  by rewrite (prefix_lookup_Some _ _ _ _ E2 Hl).
Qed.

Lemma run_mapM_decrypt (tokens : list string) (w : World) :
  run (mapM (decrypt_email P) tokens) w =
  match mapM (open_token P (fernet w)) tokens with
  | Some ps => (Returns ps, w)
  | None => (Raises InvalidToken, w)
  end.
Proof.
  induction tokens as [|t ts IH]; [done|].
  cbn [mapM]. rewrite run_bind, run_decrypt_email.
  destruct (open_token P (fernet w) t) as [s|]; cbn [mbind option_bind]; [|done].
  rewrite run_bind, IH. by destruct (mapM (open_token P (fernet w)) ts).
Qed.
End Growth.

Section Listing.
Context (P : Primitives).

Lemma deref_Some (w : World) (d : loc) (rec : ActivityRecord) :
  deref w d = Some rec ->
  exists info, dicts w !! d = Some info /\
    lists w !! participants info = Some (r_participants rec) /\
    rec = {| r_description := description info; r_schedule := schedule info;
             r_max_participants := max_participants info;
             r_participants := r_participants rec |}.
Proof.
  unfold deref. destruct (dicts w !! d) as [info|] eqn:Hd; [|done].
  cbn [mbind option_bind].
  destruct (lists w !! participants info) as [ps|] eqn:Hl; [|done].
  intros [= <-]. exists info. by repeat split.
Qed.

Lemma insert_snoc {A} (l : list A) (x y : A) :
  <[length l := y]> (l ++ [x]) = l ++ [y].
Proof. rewrite insert_app_r_alt by lia. by rewrite Nat.sub_diag. Qed.

Lemma lookup_snoc {A} (l : list A) (x : A) : (l ++ [x]) !! length l = Some x.
Proof. rewrite lookup_app_r by lia. by rewrite Nat.sub_diag. Qed.

Lemma step_spec (name : string) (d : loc) (acc : gmap string loc)
    (w : World) (rec : ActivityRecord) :
  deref w d = Some rec ->
  exists w', ext w w' /\
    match plain P (fernet w) rec with
    | Some prec =>
        run (get_activities_step P acc (name, d)) w
          = (Returns (<[name := length (dicts w)]> acc), w') /\
        deref w' (length (dicts w)) = Some prec /\
        fresh_copy w w' (length (dicts w))
    | None =>
        run (get_activities_step P acc (name, d)) w = (Raises InvalidToken, w')
    end.
Proof.
  intros (info & Hd & Hl & Hrec)%deref_Some.
  unfold get_activities_step, plain.
  rewrite !run_bind. cbn [run load_dict]. rewrite Hd.
  rewrite !run_bind. cbn [run new_dict]. 
  rewrite !run_bind. cbn [run load_list with_dicts lists]. rewrite Hl.
  rewrite !run_bind, run_mapM_decrypt. cbn [fernet with_dicts].
  destruct (mapM (open_token P (fernet w)) (r_participants rec)) as [ps|];
    cbn [mbind option_bind].
  - eexists. split; [|split; [reflexivity|split]].
    + repeat split; cbn [activities fernet env dicts lists with_dicts with_lists];
        try done.
      * rewrite insert_snoc. by apply prefix_app_r.
      * by apply prefix_app_r.
    + unfold deref. cbn [activities fernet env dicts lists with_dicts with_lists].
      rewrite insert_snoc, !lookup_snoc. cbn [mbind option_bind participants].
      rewrite lookup_snoc. cbn [mbind option_bind]. by rewrite Hrec.
    + split; [done|]. eexists.
      cbn [activities fernet env dicts lists with_dicts with_lists].
      rewrite insert_snoc, lookup_snoc. split; [done|]. cbn. done.
  - eexists. split; [|reflexivity].
    repeat split; cbn [activities fernet env dicts lists with_dicts with_lists];
      try done.
    by apply prefix_app_r.
Qed.
End Listing.

(** ** The listing *)

Section Listing.
Context (P : Primitives).

Lemma for_each_spec (l : list (string * loc)) (acc : gmap string loc)
    (w w' : World) (o : outcome (gmap string loc)) :
  NoDup l.*1 ->
  (forall name d, (name, d) ∈ l -> is_Some (deref w d)) ->
  run (for_each (get_activities_step P) acc l) w = (o, w') ->
  ext w w' /\
  match o with
  | Returns r =>
      (forall name, name ∉ l.*1 -> r !! name = acc !! name) /\
      (forall name d, (name, d) ∈ l ->
         exists d' rec prec,
           r !! name = Some d' /\ fresh_copy w w' d' /\
           deref w d = Some rec /\ plain P (fernet w) rec = Some prec /\
           deref w' d' = Some prec)
  | Raises e =>
      e = InvalidToken /\
      exists name d rec,
        (name, d) ∈ l /\ deref w d = Some rec /\ plain P (fernet w) rec = None
  end.
Proof.
  revert acc w. induction l as [|[n d] l IH]; intros acc w Hnd Hok.
  - intros [= <- <-]. split; [apply ext_refl|]. split; [done|].
    intros ?? []%elem_of_nil.
  - apply NoDup_cons in Hnd as [Hn Hnd].
    destruct (Hok n d) as [rec Hrec]; [left|].
    destruct (step_spec P n d acc w rec Hrec) as (w1 & Hext & Hstep).
    cbn [for_each]. rewrite run_bind.
    destruct (plain P (fernet w) rec) as [prec|] eqn:Hplain.
    + destruct Hstep as (-> & Hnew & Hfresh). intros Hrun.
      assert (Hok1 : forall name d0, (name, d0) ∈ l -> is_Some (deref w1 d0)).
      { intros name d0 Hin. destruct (Hok name d0) as [r0 Hr0]; [by right|].
        exists r0. by eapply deref_ext. }
      destruct (IH _ _ Hnd Hok1 Hrun) as [Hext1 Hres].
      assert (Hlen : length (dicts w) <= length (dicts w1))
        by (destruct Hext as (_&_&_&Hp&_); by apply prefix_length).
      assert (Hlen' : length (lists w) <= length (lists w1))
        by (destruct Hext as (_&_&_&_&Hp); by apply prefix_length).
      assert (Hf : fernet w1 = fernet w) by (by destruct Hext as (_&?&_)).
      split; [by eapply ext_trans|].
      destruct o as [r|e].
      * destruct Hres as [Hkeep Hall]. split.
        -- intros name Hname. cbn in Hname.
           apply not_elem_of_cons in Hname as [Hne Hname].
           rewrite Hkeep by done. by rewrite lookup_insert_ne.
        -- intros name d0 [[= -> ->]|Hin]%elem_of_cons.
           ++ exists (length (dicts w)), rec, prec.
              rewrite Hkeep by done. rewrite lookup_insert_eq.
              split; [done|]. split; [|split; [done|split; [done|]]].
              ** destruct Hfresh as (Hge & info' & Hi & Hpi). split; [done|].
                 exists info'. split; [|done].
                 destruct Hext1 as (_&_&_&Hp&_).
                 by eapply prefix_lookup_Some.
              ** by eapply deref_ext.
           ++ destruct (Hall _ _ Hin) as (d' & rec' & prec' & H1 & H2 & H3 & H4 & H5).
              destruct (Hok name d0) as [r0 Hr0]; [by right|].
              pose proof (deref_ext _ _ _ _ Hext Hr0) as Hr1.
              rewrite Hr1 in H3. injection H3 as <-.
              exists d', r0, prec'. rewrite <- Hf.
              split; [done|]. split; [|done].
              destruct H2 as (Hge & info' & Hi & Hpi). split; [lia|].
              exists info'. split; [done|lia].
      * destruct Hres as [-> (name & d0 & rec' & Hin & H3 & H4)].
        split; [done|].
        destruct (Hok name d0) as [r0 Hr0]; [by right|].
        pose proof (deref_ext _ _ _ _ Hext Hr0) as Hr1.
        rewrite Hr1 in H3. injection H3 as <-.
        exists name, d0, r0. rewrite <- Hf. repeat split; try done. by right.
    + rewrite Hstep. intros [= <- <-]. split; [done|]. split; [done|].
      exists n, d, rec. repeat split; try done. left.
Qed.

Lemma roster_ext (w w' : World) : wf w -> ext w w' -> roster w' = roster w.
Proof.
  intros [Hok _] Hext. unfold roster, view.
  destruct Hext as (Ha & Hrest). rewrite Ha.
  apply map_eq. intros name. rewrite !lookup_omap.
  destruct (activities w !! name) as [d|] eqn:E; [|done]. cbn.
  destruct (Hok _ _ E) as [rec Hrec]. rewrite Hrec.
  eapply deref_ext; [|done]. by split.
Qed.

Lemma listing (w w' : World) (o : outcome (gmap string loc)) :
  wf w -> run (get_activities P) w = (o, w') ->
  ext w w' /\ roster w' = roster w /\
  match o with
  | Returns r =>
      view w' r = omap (plain P (fernet w)) (roster w) /\
      dom r = dom (activities w) /\
      map_Forall (fun _ d' => fresh_copy w w' d') r
  | Raises e =>
      e = InvalidToken /\
      exists name rec, roster w !! name = Some rec /\ plain P (fernet w) rec = None
  end.
Proof.
  intros Hwf Hrun. pose proof Hwf as [Hok _].
  unfold get_activities in Hrun. rewrite run_bind in Hrun. cbn in Hrun.
  apply for_each_spec in Hrun as [Hext Hres].
  2:{ apply NoDup_fst_map_to_list. }
  2:{ intros name d Hin%elem_of_map_to_list. by eapply Hok. }
  split; [done|]. split; [by apply roster_ext|].
  destruct o as [r|e].
  - destruct Hres as [Hkeep Hall].
    assert (Hnone : forall name, activities w !! name = None -> r !! name = None).
    { intros name Hn. rewrite Hkeep; [done|].
      intros ([n d] & -> & Hin%elem_of_map_to_list)%list_elem_of_fmap.
      cbn in Hn. congruence. }
    split; [|split].
    + apply map_eq. intros name. unfold roster, view. rewrite !lookup_omap.
      destruct (activities w !! name) as [d|] eqn:E.
      * destruct (Hall name d) as (d' & rec & prec & -> & _ & Hrec & Hpl & Hd');
          [by apply elem_of_map_to_list|].
        cbn. by rewrite Hd', Hrec.
      * by rewrite Hnone.
    + apply set_eq. intros name. rewrite !elem_of_dom.
      destruct (activities w !! name) as [d|] eqn:E.
      * destruct (Hall name d) as (d' & _ & _ & -> & _);
          [by apply elem_of_map_to_list|]. split; by eauto.
      * rewrite Hnone by done. done.
    + intros name d' Hr.
      destruct (activities w !! name) as [d|] eqn:E.
      * destruct (Hall name d) as (d'' & _ & _ & Hr' & Hfr & _);
          [by apply elem_of_map_to_list|]. congruence.
      * rewrite Hnone in Hr by done. done.
  - destruct Hres as [-> (name & d & rec & Hin%elem_of_map_to_list & Hrec & Hpl)].
    split; [done|]. exists name, rec. split; [|done].
    unfold roster, view. rewrite lookup_omap, Hin. done.
Qed.
End Listing.

(** ** Tokens *)

Lemma encode_decode (b : list byte) : encode (decode b) = b.
Proof. apply list_byte_of_string_of_list_byte. Qed.

Lemma decode_encode (s : string) : decode (encode s) = s.
Proof. apply string_of_list_byte_of_string. Qed.

Lemma length_next_iv (e : Env) : length (next_iv e) = 16.
Proof. unfold next_iv. by rewrite length_map, length_seq. Qed.

Section Tokens.
Context (P : Primitives).

Lemma token_iv_token_at (f : Fernet.t) (e : Env) (email : string) :
  token_iv (token_at P f e email) = Some (next_iv e).
Proof.
  unfold token_iv, token_at, Fernet.encrypt_from_parts.
  rewrite encode_decode, urlsafe_b64_roundtrip. cbn [mbind option_bind].
  reflexivity.
Qed.

Lemma token_at_iv_ne (f : Fernet.t) (e1 e2 : Env) (x1 x2 : string) :
  next_iv e1 <> next_iv e2 -> token_at P f e1 x1 <> token_at P f e2 x2.
Proof.
  intros Hne Heq. apply Hne.
  pose proof (token_iv_token_at f e1 x1) as H1.
  rewrite Heq, token_iv_token_at in H1. congruence.
Qed.

Context (HP : lawful P).

Lemma open_token_at (f : Fernet.t) (e : Env) (email : string) :
  open_token P f (token_at P f e email) = Some email.
Proof.
  unfold open_token, token_at. rewrite encode_decode.
  rewrite (Fernet_facts.fernet_decrypt_encrypt P HP) by apply length_next_iv.
  cbn. by rewrite decode_encode.
Qed.

Lemma token_at_email_ne (f : Fernet.t) (e1 e2 : Env) (x1 x2 : string) :
  x1 <> x2 -> token_at P f e1 x1 <> token_at P f e2 x2.
Proof.
  intros Hne Heq. apply Hne.
  pose proof (open_token_at f e1 x1) as H1.
  rewrite Heq, open_token_at in H1. congruence.
Qed.
End Tokens.

Module Toy_facts.
Import Toy.

Lemma length_key_block (k : list byte) : length (key_block k) = 16.
Proof.
  unfold key_block. rewrite length_take, length_app, length_replicate. lia.
Qed.

Lemma primitives_lawful : lawful primitives.
Proof.
  split; [|split]; intros k b; cbn [primitives aes_encrypt aes_decrypt hmac_sha256];
    unfold toy_block, toy_mac.
  - intros Hb. rewrite length_xor_bytes, length_key_block. lia.
  - intros Hb. apply xor_bytes_cancel. by rewrite length_key_block.
  - apply length_replicate.
Qed.
End Toy_facts.

Section Invariant.
Context (P : Primitives).

Lemma wf_stored (w w' : World) : stored w' = stored w -> wf w -> wf w'.
Proof.
  unfold stored, wf, tidy, deref. intros [= -> -> -> _]. done.
Qed.

Lemma wf_ext (w w' : World) : ext w w' -> wf w -> wf w'.
Proof.
  intros Hext [Hok Hsep]. pose proof Hext as (Ha & _ & _ & Hd & _). split.
  - intros name d Hn. rewrite Ha in Hn.
    destruct (Hok _ _ Hn) as [rec Hrec]. exists rec. by eapply deref_ext.
  - intros n1 n2 d1 d2 i1 i2 H1 H2 Hd1 Hd2 Hp. rewrite Ha in H1, H2.
    destruct (Hok _ _ H1) as [r1 (j1 & Hj1 & _)%deref_Some].
    destruct (Hok _ _ H2) as [r2 (j2 & Hj2 & _)%deref_Some].
    pose proof (prefix_lookup_Some _ _ _ _ Hj1 Hd) as Hk1.
    pose proof (prefix_lookup_Some _ _ _ _ Hj2 Hd) as Hk2.
    eapply (Hsep n1 n2 d1 d2 j1 j2); try done. congruence.
Qed.

Lemma wf_handle (w : World) (r : request) :
  wf w -> wf (snd (run (handle P r) w)).
Proof.
  intros Hwf. destruct (run (handle P r) w) as [[msg|e] w'] eqn:Hrun; cbn.
  - destruct (handled _ _ _ _ _ Hrun) as (d & info & ps & ps' & Ha & Hd & Hl & -> & _).
    destruct Hwf as [Hok Hsep]. split; [|done].
    intros name d0 Hn. cbn in Hn.
    destruct (Hok _ _ Hn) as [rec (j & Hj & Hjl & _)%deref_Some].
    unfold deref. cbn. rewrite Hj. cbn.
    destruct (decide (participants j = participants info)) as [->|Hne].
    + rewrite list_lookup_insert_eq by (by eapply lookup_lt_Some). by eexists.
    + rewrite list_lookup_insert_ne by done. rewrite Hjl. by eexists.
  - eapply wf_stored; [|done]. by eapply failed_request.
Qed.

Lemma wf_listing (w : World) : wf w -> wf (snd (run (get_activities P) w)).
Proof.
  intros Hwf. destruct (run (get_activities P) w) as [o w'] eqn:Hrun; cbn.
  destruct (listing _ _ _ _ Hwf Hrun) as [Hext _]. by eapply wf_ext.
Qed.
End Invariant.

(** ** Start-up *)

Section Startup.
Context (P : Primitives).

Lemma run_mapM_encrypt (emails : list string) (w : World) :
  run (mapM (encrypt_email P) emails) w =
  (Returns (seal_all P (fernet w) (env w) emails),
   with_env (Nat.iter (length emails) advance (env w)) w).
Proof.
  revert w. induction emails as [|x rest IH]; intros w.
  - by destruct w.
  - cbn [mapM]. rewrite run_bind, run_encrypt_email.
    rewrite run_bind, IH. cbn [length]. rewrite Nat.iter_succ_r. done.
Qed.

Lemma run_new_activity (d s : string) (m : Z) (emails : list string) (w : World) :
  run (new_activity P d s m emails) w =
  (Returns (length (dicts w)),
   with_dicts (dicts w ++ [{| description := d; schedule := s;
                              max_participants := m;
                              participants := length (lists w) |}])
     (with_lists (lists w ++ [seal_all P (fernet w) (env w) emails])
        (with_env (Nat.iter (length emails) advance (env w)) w))).
Proof.
  unfold new_activity. rewrite run_bind, run_mapM_encrypt. done.
Qed.
End Startup.

Section Build.
Context (P : Primitives).

Lemma deref_grows (w0 w : World) (d : loc) (rec : ActivityRecord) :
  dicts w0 `prefix_of` dicts w -> lists w0 `prefix_of` lists w ->
  deref w0 d = Some rec -> deref w d = Some rec.
Proof.
  intros Hd Hl. unfold deref.
  destruct (dicts w0 !! d) as [info|] eqn:E; [|done].
  rewrite (prefix_lookup_Some _ _ _ _ E Hd). cbn [mbind option_bind].
  destruct (lists w0 !! participants info) as [ps|] eqn:E2; [|done].
  by rewrite (prefix_lookup_Some _ _ _ _ E2 Hl).
Qed.

Lemma sealed_seed_keys (f : Fernet.t) (e : Env)
    (table : list (string * (string * string * Z * list string))) :
  (sealed_seed P f e table).*1 = table.*1.
Proof.
  revert e. induction table as [|[n [[[d s] m] emails]] rest IH]; intros e; [done|].
  cbn. by rewrite IH.
Qed.

Lemma view_with_activities (a m : gmap string loc) (w : World) :
  view (with_activities a w) m = view w m.
Proof. reflexivity. Qed.

Lemma tidy_with_activities (a m : gmap string loc) (w : World) :
  tidy m w -> tidy m (with_activities a w).
Proof. done. Qed.

Lemma build_spec (table : list (string * (string * string * Z * list string)))
    (acc : gmap string loc) (w : World) :
  NoDup table.*1 ->
  (forall name, name ∈ table.*1 -> acc !! name = None) ->
  tidy acc w ->
  exists acc' w',
    run (for_each (build_step P) acc table) w = (Returns acc', w') /\
    tidy acc' w' /\ fernet w' = fernet w /\
    view w' acc' = list_to_map (sealed_seed P (fernet w) (env w) table) ∪ view w acc.
Proof.
  revert acc w.
  induction table as [|[n [[[d s] m] emails]] rest IH]; intros acc w Hnd Hnew Htidy.
  - exists acc, w. repeat split; try apply Htidy.
    cbn. by rewrite (left_id_L ∅ (∪)).
  - cbn in Hnd. apply NoDup_cons in Hnd as [Hn Hnd].
    cbn [for_each build_step]. rewrite !run_bind, run_new_activity.
    cbn [run mret M_ret].
    set (info := {| description := d; schedule := s; max_participants := m;
                    participants := length (lists w) |}).
    set (toks := seal_all P (fernet w) (env w) emails).
    set (w1 := with_dicts (dicts w ++ [info])
                 (with_lists (lists w ++ [toks])
                    (with_env (Nat.iter (length emails) advance (env w)) w))).
    set (rec := {| r_description := d; r_schedule := s; r_max_participants := m;
                   r_participants := toks |}).
    assert (Hpd : dicts w `prefix_of` dicts w1) by (by apply prefix_app_r).
    assert (Hpl : lists w `prefix_of` lists w1) by (by apply prefix_app_r).
    assert (Hrec : deref w1 (length (dicts w)) = Some rec).
    { unfold deref. cbn [w1 dicts lists with_dicts with_lists with_env].
      rewrite lookup_snoc. cbn [mbind option_bind info participants].
      by rewrite lookup_snoc. }
    destruct Htidy as [Hok Hsep].
    assert (Hold : forall name d0 i0, acc !! name = Some d0 ->
              dicts w1 !! d0 = Some i0 ->
              dicts w !! d0 = Some i0 /\ participants i0 < length (lists w)).
    { intros name d0 i0 Ha Hi.
      destruct (Hok _ _ Ha) as [r0 (j & Hj & Hjl & _)%deref_Some].
      rewrite (prefix_lookup_Some _ _ _ _ Hj Hpd) in Hi. injection Hi as <-.
      split; [done|]. by eapply lookup_lt_Some. }
    assert (Hnewd : forall i0, dicts w1 !! length (dicts w) = Some i0 ->
              participants i0 = length (lists w)).
    { intros i0. cbn [w1 dicts with_dicts]. rewrite lookup_snoc. by intros [= <-]. }
    assert (Htidy1 : tidy (<[n := length (dicts w)]> acc) w1).
    { split.
      - intros name d0. rewrite lookup_insert. case_decide as Hname.
        + intros [= <-]. by eexists.
        + intros Ha. destruct (Hok _ _ Ha) as [r0 Hr0]. exists r0.
          by eapply deref_grows.
      - intros n1 n2 d1 d2 i1 i2. rewrite !lookup_insert.
        case_decide as H1; case_decide as H2; intros Ha1 Ha2 Hd1 Hd2 Hp.
        + congruence.
        + injection Ha1 as <-. apply Hnewd in Hd1.
          destruct (Hold _ _ _ Ha2 Hd2) as [_ Hlt]. lia.
        + injection Ha2 as <-. apply Hnewd in Hd2.
          destruct (Hold _ _ _ Ha1 Hd1) as [_ Hlt]. lia.
        + destruct (Hold _ _ _ Ha1 Hd1) as [Hd1' _].
          destruct (Hold _ _ _ Ha2 Hd2) as [Hd2' _].
          by eapply (Hsep n1 n2 d1 d2 i1 i2). }
    destruct (IH (<[n := length (dicts w)]> acc) w1 Hnd) as
      (acc' & w' & Hrun & Htidy' & Hf & Hview); [|done|].
    { intros name Hname. rewrite lookup_insert_ne by (intros ->; done).
      apply Hnew. cbn. by right. }
    exists acc', w'. split; [done|]. split; [done|]. split; [done|].
    rewrite Hview. cbn [sealed_seed]. rewrite list_to_map_cons. fold toks. fold rec.
    cbn [w1 fernet env with_dicts with_lists with_env].
    assert (Hv1 : view w1 (<[n := length (dicts w)]> acc) = <[n := rec]> (view w acc)).
    { unfold view. rewrite (omap_insert_Some _ _ _ _ rec) by done. f_equal.
      apply map_eq. intros name. rewrite !lookup_omap.
      destruct (acc !! name) as [d0|] eqn:Ha; [|done]. cbn.
      destruct (Hok _ _ Ha) as [r0 Hr0]. rewrite Hr0. by eapply deref_grows. }
    rewrite Hv1. rewrite <- insert_union_l. rewrite insert_union_r; [done|].
    apply not_elem_of_list_to_map_1. by rewrite sealed_seed_keys.
Qed.

Lemma seed_names_NoDup : NoDup seed.*1.
Proof. apply (bool_decide_unpack (NoDup seed.*1)). by vm_compute. Qed.

Lemma startup_spec (f : Fernet.t) (e : Env) :
  wf (startup P f e) /\ fernet (startup P f e) = f /\
  roster (startup P f e) = list_to_map (sealed_seed P f e seed).
Proof.
  destruct (build_spec seed ∅ (blank f e) seed_names_NoDup) as
    (acc & w' & Hrun & Htidy & Hf & Hview); [done| |].
  { split; intros *; by rewrite ?lookup_empty. }
  unfold startup, build_activities. rewrite run_bind, Hrun. cbn [run snd].
  split; [|split].
  - by apply tidy_with_activities.
  - done.
  - unfold roster. cbn [activities with_activities].
    rewrite view_with_activities, Hview. unfold view.
    rewrite omap_empty. by rewrite (right_id_L ∅ (∪)).
Qed.
End Build.

Section Sealed.
Context (P : Primitives) (HP : lawful P).

Lemma open_seal_all (f : Fernet.t) (e : Env) (emails : list string) :
  mapM (open_token P f) (seal_all P f e emails) = Some emails.
Proof.
  revert e. induction emails as [|x rest IH]; intros e; [done|].
  cbn [seal_all mapM]. rewrite open_token_at by done. cbn [mbind option_bind].
  by rewrite IH.
Qed.

Lemma plain_sealed_seed (f : Fernet.t) (e : Env)
    (table : list (string * (string * string * Z * list string))) :
  omap (plain P f)
    (list_to_map (sealed_seed P f e table) : gmap string ActivityRecord)
  = list_to_map (to_json table).
Proof.
  revert e. induction table as [|[n [[[d s] m] emails]] rest IH]; intros e.
  - apply omap_empty.
  - cbn [sealed_seed to_json map]. rewrite !list_to_map_cons.
    erewrite omap_insert_Some; [by rewrite IH|].
    unfold plain. cbn [r_participants]. by rewrite open_seal_all.
Qed.

Lemma sealed_seed_plain (f : Fernet.t) (e : Env)
    (table : list (string * (string * string * Z * list string)))
    (name : string) (rec : ActivityRecord) :
  (name, rec) ∈ sealed_seed P f e table -> is_Some (plain P f rec).
Proof.
  revert e. induction table as [|[n [[[d s] m] emails]] rest IH]; intros e.
  - intros []%elem_of_nil.
  - cbn [sealed_seed]. intros [[= -> ->]|Hin]%elem_of_cons; [|by eapply IH].
    unfold plain. cbn [r_participants]. rewrite open_seal_all. by eexists.
Qed.

Lemma valid_startup (f : Fernet.t) (e : Env) : valid P (startup P f e).
Proof.
  destruct (startup_spec P f e) as (_ & Hf & Hr).
  unfold valid. rewrite Hf, Hr. intros name rec Hrec.
  apply elem_of_list_to_map_2 in Hrec. exact (sealed_seed_plain _ _ _ _ _ Hrec).
Qed.
End Sealed.

(** ** Signup and unregister, step by step *)

Section Requests.
Context (P : Primitives).

Lemma roster_Some (w : World) (a : string) (rec : ActivityRecord) :
  roster w !! a = Some rec ->
  exists d info,
    activities w !! a = Some d /\ dicts w !! d = Some info /\
    lists w !! participants info = Some (r_participants rec) /\
    deref w d = Some rec.
Proof.
  unfold roster, view. rewrite lookup_omap.
  destruct (activities w !! a) as [d|]; [|done]. cbn [mbind option_bind].
  intros Hrec. destruct (deref_Some _ _ _ Hrec) as (info & Hd & Hl & _).
  by exists d, info.
Qed.

Lemma run_signup (w : World) (a email : string) (d : loc) (info : ActivityInfo)
    (ps : list string) :
  activities w !! a = Some d -> dicts w !! d = Some info ->
  lists w !! participants info = Some ps ->
  run (signup_for_activity P a email) w =
  if bool_decide (token_at P (fernet w) (env w) email ∈ ps)
  then (Raises (HTTPException 400 "Student is already signed up"), settled w)
  else (Returns ("Signed up " +:+ email +:+ " for " +:+ a),
        with_lists (<[participants info :=
                        ps ++ [token_at P (fernet w) (env w) email]]> (lists w))
          (settled w)).
Proof.
  intros Ha Hd Hl. unfold signup_for_activity.
  rewrite run_bind. cbn [run global_activities]. rewrite Ha.
  rewrite run_bind, run_encrypt_email.
  rewrite run_bind. cbn [run load_dict dicts with_env]. rewrite Hd.
  rewrite run_bind. cbn [run load_list lists with_env]. rewrite Hl.
  by case_bool_decide.
Qed.

Lemma run_unregister (w : World) (a email : string) (d : loc) (info : ActivityInfo)
    (ps : list string) :
  activities w !! a = Some d -> dicts w !! d = Some info ->
  lists w !! participants info = Some ps ->
  run (unregister_from_activity P a email) w =
  match remove_first (token_at P (fernet w) (env w) email) ps with
  | None =>
      (Raises (HTTPException 400 "Student is not signed up for this activity"),
       settled w)
  | Some rest =>
      (Returns ("Unregistered " +:+ email +:+ " from " +:+ a),
       with_lists (<[participants info := rest]> (lists w)) (settled w))
  end.
Proof.
  intros Ha Hd Hl. unfold unregister_from_activity.
  rewrite run_bind. cbn [run global_activities]. rewrite Ha.
  rewrite run_bind, run_encrypt_email.
  rewrite run_bind. cbn [run load_dict dicts with_env]. rewrite Hd.
  rewrite run_bind. cbn [run load_list lists with_env]. rewrite Hl.
  set (tok := token_at P (fernet w) (env w) email).
  assert (Hrm : forall l, tok ∉ l <-> remove_first tok l = None).
  { induction l as [|y l IH]; cbn [remove_first]; [by split; [|intros _ []%elem_of_nil]|].
    case_bool_decide as Hy.
    - subst y. split; [intros []; left | done].
    - rewrite not_elem_of_cons, IH.
      destruct (remove_first tok l); cbn; naive_solver. }
  case_bool_decide as Hin.
  - apply Hrm in Hin. by rewrite Hin.
  - destruct (remove_first tok ps) eqn:E; [done|]. by apply Hrm in E.
Qed.

Lemma roster_update (w : World) (a : string) (d : loc) (info : ActivityInfo)
    (rec : ActivityRecord) (v : list string) :
  wf w -> activities w !! a = Some d -> dicts w !! d = Some info ->
  deref w d = Some rec ->
  roster (with_lists (<[participants info := v]> (lists w)) (settled w))
  = <[a := with_participants v rec]> (roster w).
Proof.
  intros [Hok Hsep] Ha Hd Hrec.
  destruct (deref_Some _ _ _ Hrec) as (info' & Hd' & Hl & _).
  assert (info' = info) as -> by congruence.
  apply map_eq. intros name. unfold roster, view.
  destruct (decide (name = a)) as [->|Hne].
  - rewrite lookup_insert_eq, lookup_omap. cbn [activities with_lists settled with_env].
    rewrite Ha. cbn [mbind option_bind].
    rewrite (deref_with_lists_eq _ _ _ _ _ Hd Hl), Hrec. done.
  - rewrite lookup_insert_ne by done. rewrite !lookup_omap.
    cbn [activities with_lists settled with_env].
    destruct (activities w !! name) as [d2|] eqn:Ha2; [|done].
    cbn [mbind option_bind].
    destruct (Hok _ _ Ha2) as [r2 Hr2].
    destruct (deref_Some _ _ _ Hr2) as (i2 & Hd2 & _).
    apply (deref_with_lists_ne _ _ _ _ i2); [done|].
    intros Heq. apply Hne. by eapply (Hsep name a).
Qed.
End Requests.

Section Chess.
Context (P : Primitives).

Lemma chess_club_seed (f : Fernet.t) (e : Env) :
  roster (startup P f e) !! "Chess Club" =
  Some {| r_description := "Learn strategies and compete in chess tournaments";
          r_schedule := "Fridays, 3:30 PM - 5:00 PM";
          r_max_participants := 12;
          r_participants :=
            [token_at P f e "michael@mergington.edu";
             token_at P f (advance e) "daniel@mergington.edu"] |}.
Proof. reflexivity. Qed.

Lemma startup_env (f : Fernet.t) (e : Env) :
  env (startup P f e) = Nat.iter 18 advance e.
Proof. reflexivity. Qed.
End Chess.

Section Validity.
Context (P : Primitives) (HP : lawful P).

Lemma remove_first_sub (x : string) (l rest : list string) :
  remove_first x l = Some rest -> rest ⊆ l.
Proof.
  revert rest. induction l as [|y l IH]; intros rest; cbn [remove_first]; [done|].
  case_bool_decide.
  - intros [= <-]. set_solver.
  - destruct (remove_first x l) as [r|]; [|done]. cbn. intros [= <-].
    specialize (IH r eq_refl). set_solver.
Qed.

Lemma plain_Some (f : Fernet.t) (rec : ActivityRecord) :
  is_Some (plain P f rec) <->
  Forall (fun t => is_Some (open_token P f t)) (r_participants rec).
Proof.
  unfold plain. rewrite <- (mapM_is_Some (open_token P f)).
  destruct (mapM (open_token P f) (r_participants rec)); cbn; split;
    intros [? ?]; by eauto.
Qed.

Lemma valid_handle (w : World) (r : request) :
  wf w -> valid P w -> valid P (snd (run (handle P r) w)).
Proof.
  intros Hwf Hval.
  destruct (run (handle P r) w) as [[msg|e] w'] eqn:Hrun; cbn [snd].
  - destruct (handled _ _ _ _ _ Hrun) as (d & info & ps & ps' & Ha & Hd & Hl & -> & Hr).
    assert (Hrec : exists rec, deref w d = Some rec /\ r_participants rec = ps).
    { destruct Hwf as [Hok _]. destruct (Hok _ _ Ha) as [rec Hrec]. exists rec.
      split; [done|]. destruct (deref_Some _ _ _ Hrec) as (i & Hi & Hil & _).
      congruence. }
    destruct Hrec as (rec & Hrec & Hps).
    unfold valid. rewrite (roster_update _ (target r) d info rec ps') by done.
    cbn [fernet with_lists settled with_env].
    intros name rec'. rewrite lookup_insert. case_decide.
    + intros [= <-]. apply plain_Some. cbn [with_participants r_participants].
      assert (Hall : Forall (fun t => is_Some (open_token P (fernet w) t)) ps).
      { rewrite <- Hps. apply plain_Some. eapply (Hval (target r)).
        unfold roster, view. rewrite lookup_omap, Ha. done. }
      destruct r as [a em|a em]; cbn [sealed] in Hr.
      * destruct Hr as [_ ->]. apply Forall_app. split; [done|].
        constructor; [|done]. rewrite open_token_at by done. by eexists.
      * destruct Hr as [_ Hrm%remove_first_sub].
        rewrite Forall_forall in Hall |- *. intros t Ht. apply Hall. set_solver.
    + intros Hn. by eapply Hval.
  - pose proof (failed_request _ _ _ _ _ Hrun) as Hst.
    unfold stored in Hst. injection Hst as Ha Hd Hl Hf.
    unfold valid, roster, view, deref in *. by rewrite Ha, Hd, Hl, Hf.
Qed.

Lemma signup_all (a : string) (es : list string) (w : World)
    (rec : ActivityRecord) (ps0 : list string) :
  wf w -> roster w !! a = Some rec ->
  mapM (open_token P (fernet w)) (r_participants rec) = Some ps0 ->
  NoDup (ps0 ++ es) ->
  exists msgs w' toks,
    run (mapM (signup_for_activity P a) es) w = (Returns msgs, w') /\
    length msgs = length es /\ wf w' /\ fernet w' = fernet w /\
    roster w' !! a = Some (with_participants toks rec) /\
    mapM (open_token P (fernet w)) toks = Some (ps0 ++ es).
Proof.
  revert w rec ps0. induction es as [|x es IH]; intros w rec ps0 Hwf Hrec Hopen Hnd.
  - exists [], w, (r_participants rec). rewrite app_nil_r.
    split; [done|]. split; [done|]. split; [done|]. split; [done|].
    split; [|done]. by destruct rec.
  - destruct (roster_Some _ _ _ Hrec) as (d & info & Ha & Hd & Hl & Hdr).
    set (tok := token_at P (fernet w) (env w) x).
    apply NoDup_app in Hnd as (Hnd0 & Hdisj & Hnd1).
    apply NoDup_cons in Hnd1 as [Hx Hnd1].
    assert (Hfresh : tok ∉ r_participants rec).
    { intros [i Hi]%list_elem_of_lookup. apply mapM_Some_1 in Hopen.
      destruct (Forall2_lookup_l _ _ _ _ _ Hopen Hi) as (y & Hy & Hty).
      unfold tok in Hty. rewrite open_token_at in Hty by done.
      injection Hty as <-. apply (Hdisj x); [|left].
      apply list_elem_of_lookup. by exists i. }
    cbn [mapM]. rewrite run_bind.
    rewrite (run_signup P w a x d info (r_participants rec)) by done.
    rewrite bool_decide_eq_false_2 by done.
    set (w1 := with_lists _ _).
    assert (Hwf1 : wf w1).
    { pose proof (wf_handle P w (Signup a x) Hwf) as H. cbn [handle] in H.
      rewrite (run_signup P w a x d info (r_participants rec)) in H by done.
      by rewrite bool_decide_eq_false_2 in H by done. }
    assert (Hr1 : roster w1 !! a
              = Some (with_participants (r_participants rec ++ [tok]) rec)).
    { unfold w1. rewrite (roster_update w a d info rec) by done.
      by rewrite lookup_insert_eq. }
    assert (Hopen1 : mapM (open_token P (fernet w1))
              (r_participants (with_participants (r_participants rec ++ [tok]) rec))
              = Some (ps0 ++ [x])).
    { cbn [w1 fernet with_lists settled with_env with_participants r_participants].
      apply mapM_Some_2, Forall2_app; [by apply mapM_Some_1|].
      constructor; [|constructor]. unfold tok. by rewrite open_token_at. }
    destruct (IH w1 _ (ps0 ++ [x]) Hwf1 Hr1 Hopen1) as
      (msgs & w' & toks & Hrun & Hlen & Hwf' & Hf & Hr' & Hopen').
    { rewrite <- app_assoc. cbn [app]. apply NoDup_app. split; [done|].
      split; [done|]. by apply NoDup_cons. }
    exists (("Signed up " +:+ x +:+ " for " +:+ a) :: msgs), w', toks.
    rewrite run_bind, Hrun. cbn [length]. rewrite Hlen.
    split; [done|]. split; [done|]. split; [done|]. split; [by rewrite Hf|].
    split; [done|]. rewrite <- app_assoc in Hopen'. done.
Qed.
End Validity.

(** ** The claims *)

Lemma toy_world_wf : wf Toy.world.
Proof. apply startup_spec. Qed.

Lemma roster_update_self (w : World) (a : string) (d : loc) (info : ActivityInfo)
    (ps v : list string) (rec : ActivityRecord) :
  activities w !! a = Some d -> dicts w !! d = Some info ->
  lists w !! participants info = Some ps -> deref w d = Some rec ->
  roster (with_lists (<[participants info := v]> (lists w)) (settled w)) !! a
  = Some (with_participants v rec).
Proof.
  intros Ha Hd Hl Hrec. unfold roster, view. rewrite lookup_omap.
  cbn [activities with_lists settled with_env]. rewrite Ha. cbn [mbind option_bind].
  by rewrite (deref_with_lists_eq _ _ _ _ _ Hd Hl), Hrec.
Qed.

(** C1 (code defect). [encrypt_email] draws a fresh initialisation vector from
    the operating system on every call and writes it into the token, so two
    successive calls on the same email under the same key return different
    tokens whenever the two vectors drawn differ. *)
Theorem sealing_twice_differs (P : Primitives) (w : World) (email : string) :
  next_iv (env w) <> next_iv (advance (env w)) ->
  exists t1 w1 t2 w2,
    run (encrypt_email P email) w = (Returns t1, w1) /\
    run (encrypt_email P email) w1 = (Returns t2, w2) /\
    fernet w1 = fernet w /\ t1 <> t2.
Proof.
  intros Hiv. do 4 eexists. rewrite !run_encrypt_email.
  split; [done|]. split; [done|]. split; [done|].
  by apply token_at_iv_ne.
Qed.

Lemma sealing_twice_differs_witness :
  exists t1 w1 t2 w2,
    run (encrypt_email Toy.primitives michael) Toy.world = (Returns t1, w1) /\
    run (encrypt_email Toy.primitives michael) w1 = (Returns t2, w2) /\
    fernet w1 = fernet Toy.world /\ t1 <> t2.
Proof.
  apply (sealing_twice_differs Toy.primitives Toy.world michael).
  vm_compute. discriminate.
Defined.

(** C2 (code defect). Signing the same email up twice in a row is accepted
    both times whenever the two initialisation vectors drawn differ from each
    other and from those of the stored tokens: the second call does not answer
    400, and the list ends with two tokens for the one email. *)
Theorem repeated_signup_is_accepted (P : Primitives) (w : World)
    (a email : string) (rec : ActivityRecord) :
  roster w !! a = Some rec ->
  iv_unused (next_iv (env w)) (r_participants rec) ->
  iv_unused (next_iv (advance (env w))) (r_participants rec) ->
  next_iv (env w) <> next_iv (advance (env w)) ->
  exists m1 w1 m2 w2,
    run (signup_for_activity P a email) w = (Returns m1, w1) /\
    run (signup_for_activity P a email) w1 = (Returns m2, w2) /\
    r_participants <$> roster w2 !! a =
      Some (r_participants rec ++
              [token_at P (fernet w) (env w) email;
               token_at P (fernet w) (advance (env w)) email]).
Proof.
  intros Hrec Hu1 Hu2 Hiv.
  destruct (roster_Some _ _ _ Hrec) as (d & info & Ha & Hd & Hl & Hdr).
  assert (Hnotin : forall e0 l, iv_unused (next_iv e0) l ->
            token_at P (fernet w) e0 email ∉ l).
  { intros e0 l Hall Hin. unfold iv_unused in Hall. rewrite Forall_forall in Hall.
    apply (Hall _ Hin). apply token_iv_token_at. }
  set (t1 := token_at P (fernet w) (env w) email).
  set (t2 := token_at P (fernet w) (advance (env w)) email).
  set (w1 := with_lists (<[participants info := r_participants rec ++ [t1]]> (lists w))
               (settled w)).
  assert (Hl1 : lists w1 !! participants info = Some (r_participants rec ++ [t1])).
  { cbn [w1 lists with_lists]. apply list_lookup_insert_eq. by eapply lookup_lt_Some. }
  assert (Hdr1 : deref w1 d = Some (with_participants (r_participants rec ++ [t1]) rec)).
  { unfold w1. by rewrite (deref_with_lists_eq _ _ _ _ _ Hd Hl), Hdr. }
  exists ("Signed up " +:+ email +:+ " for " +:+ a), w1,
         ("Signed up " +:+ email +:+ " for " +:+ a),
         (with_lists (<[participants info := (r_participants rec ++ [t1]) ++ [t2]]>
                        (lists w1)) (settled w1)).
  split; [|split].
  - rewrite (run_signup P w a email d info (r_participants rec)) by done.
    rewrite bool_decide_eq_false_2; [done|]. by apply Hnotin.
  - rewrite (run_signup P w1 a email d info (r_participants rec ++ [t1])) by done.
    rewrite bool_decide_eq_false_2; [done|].
    cbn [w1 fernet env with_lists settled with_env].
    rewrite not_elem_of_app. split; [by apply Hnotin|].
    rewrite list_elem_of_singleton. apply not_eq_sym. by apply token_at_iv_ne.
  - rewrite (roster_update_self w1 a d info _ _ _ Ha Hd Hl1 Hdr1).
    cbn. by rewrite <- app_assoc.
Qed.

Lemma repeated_signup_is_accepted_witness :
  exists m1 w1 m2 w2,
    run (signup_for_activity Toy.primitives "Chess Club" "new@student.edu") Toy.world
      = (Returns m1, w1) /\
    run (signup_for_activity Toy.primitives "Chess Club" "new@student.edu") w1
      = (Returns m2, w2) /\
    length <$> (r_participants <$> roster w2 !! "Chess Club") = Some 4.
Proof.
  destruct (repeated_signup_is_accepted Toy.primitives Toy.world
              "Chess Club" "new@student.edu" _
              (chess_club_seed Toy.primitives Toy.key Toy.os))
    as (m1 & w1 & m2 & w2 & H1 & H2 & H3).
  - repeat constructor; vm_compute; discriminate.
  - repeat constructor; vm_compute; discriminate.
  - vm_compute. discriminate.
  - exists m1, w1, m2, w2. split; [done|]. split; [done|]. by rewrite H3.
Defined.

(** C3 (code defect). A state with the same plaintext email twice in one
    activity is reachable from the seeded roster: signing
    michael@mergington.edu up for the Chess Club again succeeds whenever the
    initialisation vector drawn differs from the one in his seeded token. *)
Theorem duplicate_enrollment_reachable (P : Primitives) (f : Fernet.t) (e : Env) :
  lawful P ->
  next_iv (Nat.iter 18 advance e) <> next_iv e ->
  exists w rec,
    reachable P f e w /\ roster w !! "Chess Club" = Some rec /\
    mapM (open_token P f) (r_participants rec) = Some [michael; daniel; michael].
Proof.
  intros HP Hiv.
  pose proof (chess_club_seed P f e) as Hrec.
  destruct (roster_Some _ _ _ Hrec) as (d & info & Ha & Hd & Hl & Hdr).
  pose proof (reach_request P f e _ (Signup "Chess Club" michael) (reach_startup P f e))
    as Hreach.
  cbn [handle] in Hreach.
  rewrite (run_signup P _ "Chess Club" michael d info _ Ha Hd Hl) in Hreach.
  rewrite bool_decide_eq_false_2 in Hreach.
  2:{ cbn [r_participants]. rewrite startup_env.
      destruct (startup_spec P f e) as (_ & -> & _).
      rewrite !not_elem_of_cons. split; [|split; [|apply not_elem_of_nil]].
      - by apply token_at_iv_ne.
      - by apply token_at_email_ne. }
  cbn [snd] in Hreach. eexists _, _. split; [exact Hreach|]. split.
  - by apply (roster_update_self _ _ d info _ _ _ Ha Hd Hl Hdr).
  - cbn [with_participants r_participants app mapM].
    destruct (startup_spec P f e) as (_ & -> & _).
    rewrite !open_token_at by done. done.
Qed.

Lemma duplicate_enrollment_reachable_witness :
  exists w rec,
    reachable Toy.primitives Toy.key Toy.os w /\
    roster w !! "Chess Club" = Some rec /\
    mapM (open_token Toy.primitives Toy.key) (r_participants rec)
      = Some [michael; daniel; michael].
Proof.
  apply (duplicate_enrollment_reachable Toy.primitives Toy.key Toy.os).
  - apply Toy_facts.primitives_lawful.
  - vm_compute. discriminate.
Defined.

Section Listing_ok.
Context (P : Primitives).

Lemma listing_valid (w : World) :
  wf w -> valid P w ->
  exists r w',
    run (get_activities P) w = (Returns r, w') /\
    view w' r = omap (plain P (fernet w)) (roster w).
Proof.
  intros Hwf Hval. destruct (run (get_activities P) w) as [[r|e] w'] eqn:Hrun.
  - exists r, w'. split; [done|].
    by destruct (listing P _ _ _ Hwf Hrun) as (_ & _ & ? & _).
  - destruct (listing P _ _ _ Hwf Hrun) as (_ & _ & _ & name & rec & Hrec & Hpl).
    destruct (Hval _ _ Hrec) as [? ?]. congruence.
Qed.
End Listing_ok.

Lemma roster_settled (w : World) : roster (settled w) = roster w.
Proof. reflexivity. Qed.

Section Withdraw.
Context (P : Primitives) (HP : lawful P).

Lemma sealed_not_among (f : Fernet.t) (e : Env) (x : string)
    (toks ps : list string) :
  mapM (open_token P f) toks = Some ps -> x ∉ ps -> token_at P f e x ∉ toks.
Proof.
  intros Hopen Hx [i Hi]%list_elem_of_lookup. apply mapM_Some_1 in Hopen.
  destruct (Forall2_lookup_l _ _ _ _ _ Hopen Hi) as (y & Hy & Hty).
  rewrite open_token_at in Hty by done. injection Hty as <-.
  apply Hx. apply list_elem_of_lookup. by exists i.
Qed.

Lemma remove_first_None (x : string) (l : list string) :
  x ∉ l -> remove_first x l = None.
Proof.
  induction l as [|y l IH]; [done|]. intros [Hne Hin]%not_elem_of_cons.
  cbn [remove_first]. rewrite bool_decide_eq_false_2 by done.
  by rewrite IH.
Qed.

Lemma signup_then_withdraw (w0 : World) (a x : string) (rec : ActivityRecord)
    (ps0 : list string) :
  wf w0 -> valid P w0 -> roster w0 !! a = Some rec ->
  mapM (open_token P (fernet w0)) (r_participants rec) = Some ps0 ->
  x ∉ ps0 ->
  next_iv (env w0) <> next_iv (advance (env w0)) ->
  exists m1 w1 r w1' w2,
    run (signup_for_activity P a x) w0 = (Returns m1, w1) /\
    run (get_activities P) w1 = (Returns r, w1') /\
    r_participants <$> view w1' r !! a = Some (ps0 ++ [x]) /\
    run (unregister_from_activity P a x) w1
      = (Raises (HTTPException 400 "Student is not signed up for this activity"), w2) /\
    roster w2 = roster w1.
Proof.
  intros Hwf Hval Hrec Hopen Hx Hiv.
  destruct (roster_Some _ _ _ Hrec) as (d & info & Ha & Hd & Hl & Hdr).
  set (tn := token_at P (fernet w0) (env w0) x).
  set (w1 := with_lists (<[participants info := r_participants rec ++ [tn]]> (lists w0))
               (settled w0)).
  assert (Hrun1 : run (signup_for_activity P a x) w0
            = (Returns ("Signed up " +:+ x +:+ " for " +:+ a), w1)).
  { rewrite (run_signup P _ _ _ d info _ Ha Hd Hl).
    rewrite bool_decide_eq_false_2; [done|]. by eapply sealed_not_among. }
  assert (Hwf1 : wf w1).
  { pose proof (wf_handle P w0 (Signup a x) Hwf) as H.
    cbn [handle] in H. by rewrite Hrun1 in H. }
  assert (Hval1 : valid P w1).
  { pose proof (valid_handle P HP w0 (Signup a x) Hwf Hval) as H.
    cbn [handle] in H. by rewrite Hrun1 in H. }
  pose proof (roster_update_self w0 a d info _ (r_participants rec ++ [tn]) _
                Ha Hd Hl Hdr) as Hr1.
  fold w1 in Hr1.
  assert (Hopen1 : mapM (open_token P (fernet w0)) (r_participants rec ++ [tn])
            = Some (ps0 ++ [x])).
  { apply mapM_Some_2, Forall2_app; [by apply mapM_Some_1|].
    constructor; [|constructor]. unfold tn. by rewrite open_token_at. }
  destruct (listing_valid P w1 Hwf1 Hval1) as (r & w1' & Hlist & Hview).
  exists ("Signed up " +:+ x +:+ " for " +:+ a), w1, r, w1', (settled w1).
  split; [exact Hrun1|]. split; [exact Hlist|]. split; [|split].
  - rewrite Hview, lookup_omap, Hr1. cbn [mbind option_bind].
    unfold plain. cbn [with_participants r_participants].
    change (fernet w1) with (fernet w0). rewrite Hopen1. done.
  - assert (Hl1 : lists w1 !! participants info = Some (r_participants rec ++ [tn])).
    { cbn [w1 lists with_lists]. apply list_lookup_insert_eq. by eapply lookup_lt_Some. }
    rewrite (run_unregister P w1 _ _ d info _ Ha Hd Hl1).
    rewrite remove_first_None; [done|].
    change (fernet w1) with (fernet w0). change (env w1) with (advance (env w0)).
    rewrite not_elem_of_app. split; [by eapply sealed_not_among|].
    rewrite list_elem_of_singleton. apply not_eq_sym. by apply token_at_iv_ne.
  - apply roster_settled.
Qed.
End Withdraw.

(** C4 (code defect). From the seeded roster, signing new@student.edu up for
    the Chess Club succeeds and the listing then shows the two seeded emails
    followed by the new one; withdrawing that email straight away is refused
    with 400 and the roster keeps all three tokens, whenever the
    initialisation vector drawn by the withdrawal differs from the one drawn
    by the signup. *)
Theorem withdraw_after_signup_is_refused (P : Primitives) (f : Fernet.t) (e : Env) :
  lawful P ->
  next_iv (Nat.iter 18 advance e) <> next_iv (Nat.iter 19 advance e) ->
  exists m1 w1 r w1' w2,
    run (signup_for_activity P "Chess Club" "new@student.edu") (startup P f e)
      = (Returns m1, w1) /\
    run (get_activities P) w1 = (Returns r, w1') /\
    r_participants <$> view w1' r !! "Chess Club"
      = Some [michael; daniel; "new@student.edu"] /\
    run (unregister_from_activity P "Chess Club" "new@student.edu") w1
      = (Raises (HTTPException 400 "Student is not signed up for this activity"), w2) /\
    roster w2 = roster w1.
Proof.
  intros HP Hiv.
  destruct (startup_spec P f e) as (Hwf & Hf & _).
  apply (signup_then_withdraw P HP (startup P f e) "Chess Club" "new@student.edu"
           _ [michael; daniel] Hwf (valid_startup P HP f e) (chess_club_seed P f e)).
  - rewrite Hf. cbn [r_participants mapM]. rewrite !open_token_at by done. done.
  - rewrite !not_elem_of_cons. split; [done|]. split; [done|]. apply not_elem_of_nil.
  - by rewrite startup_env.
Qed.

Lemma withdraw_after_signup_is_refused_witness :
  exists m1 w1 r w1' w2,
    run (signup_for_activity Toy.primitives "Chess Club" "new@student.edu") Toy.world
      = (Returns m1, w1) /\
    run (get_activities Toy.primitives) w1 = (Returns r, w1') /\
    r_participants <$> view w1' r !! "Chess Club"
      = Some [michael; daniel; "new@student.edu"] /\
    run (unregister_from_activity Toy.primitives "Chess Club" "new@student.edu") w1
      = (Raises (HTTPException 400 "Student is not signed up for this activity"), w2) /\
    roster w2 = roster w1.
Proof.
  apply (withdraw_after_signup_is_refused Toy.primitives Toy.key Toy.os).
  - apply Toy_facts.primitives_lawful.
  - vm_compute. discriminate.
Defined.

(** C5. For the seeded roster the listing returns, for every activity, its
    description, schedule and capacity with exactly the plaintext emails that
    were sealed at start-up. *)
Theorem listing_returns_seed_emails (P : Primitives) (f : Fernet.t) (e : Env) :
  lawful P ->
  exists r w',
    run (get_activities P) (startup P f e) = (Returns r, w') /\
    view w' r = seed_json.
Proof.
  intros HP. destruct (startup_spec P f e) as (Hwf & Hf & Hr).
  destruct (listing_valid P _ Hwf (valid_startup P HP f e)) as (r & w' & Hrun & Hview).
  exists r, w'. split; [done|].
  rewrite Hview, Hf, Hr. by apply plain_sealed_seed.
Qed.

Lemma listing_returns_seed_emails_witness :
  exists r w',
    run (get_activities Toy.primitives) Toy.world = (Returns r, w') /\
    view w' r = seed_json.
Proof.
  apply (listing_returns_seed_emails Toy.primitives Toy.key Toy.os).
  apply Toy_facts.primitives_lawful.
Defined.

Section Strangers.
Context (P : Primitives) (HP : lawful P).

Lemma signup_stranger (w : World) (a x : string) (rec : ActivityRecord)
    (ps0 : list string) :
  roster w !! a = Some rec ->
  mapM (open_token P (fernet w)) (r_participants rec) = Some ps0 ->
  x ∉ ps0 ->
  exists w',
    run (signup_for_activity P a x) w
      = (Returns ("Signed up " +:+ x +:+ " for " +:+ a), w') /\
    roster w' !! a
      = Some (with_participants
                (r_participants rec ++ [token_at P (fernet w) (env w) x]) rec) /\
    fernet w' = fernet w /\ env w' = advance (env w).
Proof.
  intros Hrec Hopen Hx.
  destruct (roster_Some _ _ _ Hrec) as (d & info & Ha & Hd & Hl & Hdr).
  eexists. split; [|split; [|split]].
  - rewrite (run_signup P _ _ _ d info _ Ha Hd Hl).
    rewrite bool_decide_eq_false_2; [done|]. by eapply sealed_not_among.
  - by apply (roster_update_self _ _ d info _ _ _ Ha Hd Hl Hdr).
  - done.
  - done.
Qed.

Lemma withdraw_stranger (w : World) (a x : string) (rec : ActivityRecord)
    (ps0 : list string) :
  roster w !! a = Some rec ->
  mapM (open_token P (fernet w)) (r_participants rec) = Some ps0 ->
  x ∉ ps0 ->
  run (unregister_from_activity P a x) w
    = (Raises (HTTPException 400 "Student is not signed up for this activity"),
       settled w).
Proof.
  intros Hrec Hopen Hx.
  destruct (roster_Some _ _ _ Hrec) as (d & info & Ha & Hd & Hl & Hdr).
  rewrite (run_unregister P _ _ _ d info _ Ha Hd Hl).
  rewrite remove_first_None; [done|]. by eapply sealed_not_among.
Qed.
End Strangers.

Lemma toy_chess_opens :
  mapM (open_token Toy.primitives (fernet Toy.world))
    [token_at Toy.primitives Toy.key Toy.os michael;
     token_at Toy.primitives Toy.key (advance Toy.os) daniel]
  = Some [michael; daniel].
Proof.
  cbn [mapM]. change (fernet Toy.world) with Toy.key.
  rewrite !open_token_at by apply Toy_facts.primitives_lawful. done.
Qed.

Lemma toy_stranger (x : string) :
  x <> michael -> x <> daniel -> x ∉ [michael; daniel].
Proof. intros. rewrite !not_elem_of_cons. by repeat split; try apply not_elem_of_nil. Qed.
(** C6. For an activity name that is not a key of the roster, both signup
    and unregister answer 404 "Activity not found" and leave the whole world
    (roster, heap, key and operating-system state) as it was. *)
Theorem unknown_activity_is_rejected (P : Primitives) (w : World) (a email : string) :
  activities w !! a = None ->
  run (signup_for_activity P a email) w
    = (Raises (HTTPException 404 "Activity not found"), w) /\
  run (unregister_from_activity P a email) w
    = (Raises (HTTPException 404 "Activity not found"), w).
Proof.
  intros Ha. split.
  - exact (unknown_activity P w (Signup a email) Ha).
  - exact (unknown_activity P w (Unregister a email) Ha).
Qed.

(** C7. Signup never looks at max_participants: from the seeded roster, any
    sequence of pairwise distinct emails other than the two seeded ones is
    signed up for the Chess Club without an error, however long it is, and
    the club (capacity 12) ends with two plus that many participants. *)
Theorem capacity_is_not_enforced (P : Primitives) (f : Fernet.t) (e : Env)
    (es : list string) :
  lawful P -> NoDup es -> michael ∉ es -> daniel ∉ es ->
  exists msgs w' rec,
    run (mapM (signup_for_activity P "Chess Club") es) (startup P f e)
      = (Returns msgs, w') /\
    length msgs = length es /\
    roster w' !! "Chess Club" = Some rec /\
    r_max_participants rec = 12%Z /\
    mapM (open_token P f) (r_participants rec) = Some ([michael; daniel] ++ es) /\
    length (r_participants rec) = 2 + length es.
Proof.
  intros HP Hnd Hm Hd.
  destruct (startup_spec P f e) as (Hwf & Hf & _).
  destruct (signup_all P HP "Chess Club" es (startup P f e) _ [michael; daniel]
              Hwf (chess_club_seed P f e))
    as (msgs & w' & toks & Hrun & Hlen & _ & _ & Hr & Hopen).
  - rewrite Hf. cbn [r_participants mapM]. rewrite !open_token_at by done. done.
  - cbn [app]. apply NoDup_cons. split.
    + rewrite not_elem_of_cons. split; [done|exact Hm].
    + apply NoDup_cons. by split.
  - rewrite Hf in Hopen. eexists msgs, w', _.
    split; [exact Hrun|]. split; [exact Hlen|]. split; [exact Hr|].
    split; [done|]. split; [exact Hopen|].
    apply length_mapM in Hopen. cbn [with_participants r_participants].
    rewrite Hopen. done.
Qed.

(** C8. When signup or unregister raises (404, 400 or any other exception),
    the roster mapping, every activity record and every participant list are
    exactly as before the call. *)
Theorem failure_leaves_roster (P : Primitives) (w w' : World) (r : request) (e : exn) :
  run (handle P r) w = (Raises e, w') ->
  activities w' = activities w /\ dicts w' = dicts w /\ lists w' = lists w /\
  roster w' = roster w.
Proof.
  intros Hrun. pose proof (failed_request _ _ _ _ _ Hrun) as Hst.
  unfold stored in Hst. injection Hst as Ha Hd Hl Hf.
  repeat split; try done.
  unfold roster, view, deref. by rewrite Ha, Hd, Hl.
Qed.

(** C9. A successful signup or unregister on activity A changes nothing but
    A's participant list: the set of activity names, every other activity's
    record, and A's description, schedule and max_participants are
    unchanged. *)
Theorem success_changes_one_list (P : Primitives) (w w' : World) (r : request)
    (msg : string) :
  wf w -> run (handle P r) w = (Returns msg, w') ->
  dom (roster w') = dom (roster w) /\
  (forall other, other <> target r -> roster w' !! other = roster w !! other) /\
  exists rec rec',
    roster w !! target r = Some rec /\ roster w' !! target r = Some rec' /\
    r_description rec' = r_description rec /\
    r_schedule rec' = r_schedule rec /\
    r_max_participants rec' = r_max_participants rec.
Proof.
  intros Hwf Hrun.
  destruct (frame P _ _ _ _ Hwf Hrun) as (Hdom & Hother & rec & ps & Hr & Hr').
  split; [done|]. split; [done|].
  by exists rec, (with_participants ps rec).
Qed.

(** C10. The listing is read-only: it leaves the roster mapping and every
    stored object (activity records and sealed participant lists) unchanged,
    draws nothing from the operating system, and the records it returns are
    objects allocated by the call, with participant lists of their own. *)
Theorem listing_is_read_only (P : Primitives) (w w' : World)
    (o : outcome (gmap string loc)) :
  wf w -> run (get_activities P) w = (o, w') ->
  activities w' = activities w /\ roster w' = roster w /\
  dicts w `prefix_of` dicts w' /\ lists w `prefix_of` lists w' /\
  fernet w' = fernet w /\ env w' = env w /\
  match o with
  | Returns r => map_Forall (fun _ d => fresh_copy w w' d) r
  | Raises _ => True
  end.
Proof.
  intros Hwf Hrun.
  destruct (listing P _ _ _ Hwf Hrun) as ((Ha & Hf & He & Hd & Hl) & Hr & Ho).
  repeat split; try done. destruct o as [r|e]; [|done]. by destruct Ho as (_ & _ & ?).
Qed.

Lemma failure_leaves_roster_witness :
  exists w',
    run (handle Toy.primitives (Unregister "Chess Club" "nobody@mergington.edu")) Toy.world
      = (Raises (HTTPException 400 "Student is not signed up for this activity"), w') /\
    activities w' = activities Toy.world /\ dicts w' = dicts Toy.world /\
    lists w' = lists Toy.world /\ roster w' = roster Toy.world.
Proof.
  pose proof (withdraw_stranger Toy.primitives Toy_facts.primitives_lawful Toy.world
                "Chess Club" "nobody@mergington.edu" _ _
                (chess_club_seed Toy.primitives Toy.key Toy.os) toy_chess_opens
                (toy_stranger "nobody@mergington.edu" ltac:(unfold michael; discriminate) ltac:(unfold daniel; discriminate))) as H.
  exists (settled Toy.world). split; [exact H|].
  exact (failure_leaves_roster Toy.primitives Toy.world _
           (Unregister "Chess Club" "nobody@mergington.edu") _ H).
Defined.

Lemma success_changes_one_list_witness :
  exists w',
    run (handle Toy.primitives (Signup "Chess Club" "new@student.edu")) Toy.world
      = (Returns "Signed up new@student.edu for Chess Club", w') /\
    dom (roster w') = dom (roster Toy.world) /\
    (forall other, other <> "Chess Club" ->
       roster w' !! other = roster Toy.world !! other) /\
    exists rec rec',
      roster Toy.world !! "Chess Club" = Some rec /\
      roster w' !! "Chess Club" = Some rec' /\
      r_description rec' = r_description rec /\
      r_schedule rec' = r_schedule rec /\
      r_max_participants rec' = r_max_participants rec.
Proof.
  destruct (signup_stranger Toy.primitives Toy_facts.primitives_lawful Toy.world
              "Chess Club" "new@student.edu" _ _
              (chess_club_seed Toy.primitives Toy.key Toy.os) toy_chess_opens
              (toy_stranger "new@student.edu" ltac:(unfold michael; discriminate) ltac:(unfold daniel; discriminate)))
    as (w' & H & _).
  exists w'. split; [exact H|].
  exact (success_changes_one_list Toy.primitives Toy.world w'
           (Signup "Chess Club" "new@student.edu") _ toy_world_wf H).
Defined.
Lemma unknown_activity_is_rejected_witness :
  run (signup_for_activity Toy.primitives "Nonexistent Club" michael) Toy.world
    = (Raises (HTTPException 404 "Activity not found"), Toy.world) /\
  run (unregister_from_activity Toy.primitives "Nonexistent Club" michael) Toy.world
    = (Raises (HTTPException 404 "Activity not found"), Toy.world).
Proof.
  apply (unknown_activity_is_rejected Toy.primitives Toy.world "Nonexistent Club" michael).
  vm_compute. reflexivity.
Defined.

Lemma capacity_is_not_enforced_witness :
  exists msgs w' rec,
    run (mapM (signup_for_activity Toy.primitives "Chess Club")
           ["s03@mergington.edu"; "s04@mergington.edu"; "s05@mergington.edu";
            "s06@mergington.edu"; "s07@mergington.edu"; "s08@mergington.edu";
            "s09@mergington.edu"; "s10@mergington.edu"; "s11@mergington.edu";
            "s12@mergington.edu"; "s13@mergington.edu"]) Toy.world
      = (Returns msgs, w') /\
    length msgs = 11 /\
    roster w' !! "Chess Club" = Some rec /\
    r_max_participants rec = 12%Z /\
    mapM (open_token Toy.primitives Toy.key) (r_participants rec)
      = Some ([michael; daniel] ++
           ["s03@mergington.edu"; "s04@mergington.edu"; "s05@mergington.edu";
            "s06@mergington.edu"; "s07@mergington.edu"; "s08@mergington.edu";
            "s09@mergington.edu"; "s10@mergington.edu"; "s11@mergington.edu";
            "s12@mergington.edu"; "s13@mergington.edu"]) /\
    length (r_participants rec) = 13.
Proof.
  apply (capacity_is_not_enforced Toy.primitives Toy.key Toy.os).
  - apply Toy_facts.primitives_lawful.
  - apply (bool_decide_unpack (NoDup _)). vm_compute. exact I.
  - apply (bool_decide_unpack (_ ∉ _)). vm_compute. exact I.
  - apply (bool_decide_unpack (_ ∉ _)). vm_compute. exact I.
Defined.

Lemma listing_is_read_only_witness :
  let o := fst (run (get_activities Toy.primitives) Toy.world) in
  let w' := snd (run (get_activities Toy.primitives) Toy.world) in
  activities w' = activities Toy.world /\ roster w' = roster Toy.world /\
  dicts Toy.world `prefix_of` dicts w' /\ lists Toy.world `prefix_of` lists w' /\
  fernet w' = fernet Toy.world /\ env w' = env Toy.world /\
  match o with
  | Returns r => map_Forall (fun _ d => fresh_copy Toy.world w' d) r
  | Raises _ => True
  end.
Proof.
  apply (listing_is_read_only Toy.primitives Toy.world).
  - exact toy_world_wf.
  - apply surjective_pairing.
Defined.

(** ** Further properties of the handlers and of start-up *)

(** X1. Sealing an email and opening the token again gives the email back,
    in every world; opening draws nothing and changes nothing. *)
Theorem decrypt_email_encrypt_email (P : Primitives) (w : World) (email : string) :
  lawful P ->
  exists token w1,
    run (encrypt_email P email) w = (Returns token, w1) /\
    run (decrypt_email P token) w1 = (Returns email, w1).
Proof.
  intros HP. exists (token_at P (fernet w) (env w) email), (settled w).
  split; [apply run_encrypt_email|].
  rewrite run_decrypt_email. change (fernet (settled w)) with (fernet w).
  by rewrite open_token_at.
Qed.

Lemma decrypt_email_encrypt_email_witness :
  exists token w1,
    run (encrypt_email Toy.primitives "new@student.edu") Toy.world = (Returns token, w1) /\
    run (decrypt_email Toy.primitives token) w1 = (Returns "new@student.edu", w1).
Proof.
  apply (decrypt_email_encrypt_email Toy.primitives Toy.world "new@student.edu").
  apply Toy_facts.primitives_lawful.
Defined.

(** X2. Under one key, the tokens of two different emails are different,
    whatever time and IV each call used. *)
Theorem tokens_of_distinct_emails_differ (P : Primitives) (w1 w2 : World)
    (x1 x2 : string) :
  lawful P -> fernet w1 = fernet w2 -> x1 <> x2 ->
  exists t1 t2,
    fst (run (encrypt_email P x1) w1) = Returns t1 /\
    fst (run (encrypt_email P x2) w2) = Returns t2 /\
    t1 <> t2.
Proof.
  intros HP Hf Hne. rewrite !run_encrypt_email. cbn [fst]. rewrite Hf.
  eexists _, _. split; [done|]. split; [done|]. by apply token_at_email_ne.
Qed.

Lemma tokens_of_distinct_emails_differ_witness :
  exists t1 t2,
    fst (run (encrypt_email Toy.primitives michael) Toy.world) = Returns t1 /\
    fst (run (encrypt_email Toy.primitives daniel) Toy.world) = Returns t2 /\
    t1 <> t2.
Proof.
  apply (tokens_of_distinct_emails_differ Toy.primitives Toy.world Toy.world michael daniel).
  - apply Toy_facts.primitives_lawful.
  - reflexivity.
  - unfold michael, daniel. discriminate.
Defined.

(** X3. Withdrawing an email that is not among the (decrypted) participants
    of an existing activity answers 400 "Student is not signed up for this
    activity"; nothing but the operating-system counters changes. *)
Theorem withdraw_of_absent_email (P : Primitives) (w : World) (a x : string)
    (rec : ActivityRecord) (ps0 : list string) :
  lawful P -> roster w !! a = Some rec ->
  mapM (open_token P (fernet w)) (r_participants rec) = Some ps0 ->
  x ∉ ps0 ->
  run (unregister_from_activity P a x) w
    = (Raises (HTTPException 400 "Student is not signed up for this activity"),
       with_env (advance (env w)) w).
Proof. intros HP. by apply withdraw_stranger. Qed.

Lemma withdraw_of_absent_email_witness :
  run (unregister_from_activity Toy.primitives "Chess Club" "nobody@mergington.edu") Toy.world
    = (Raises (HTTPException 400 "Student is not signed up for this activity"),
       with_env (advance (env Toy.world)) Toy.world).
Proof.
  apply (withdraw_of_absent_email Toy.primitives Toy.world "Chess Club"
           "nobody@mergington.edu" _ [michael; daniel]
           Toy_facts.primitives_lawful
           (chess_club_seed Toy.primitives Toy.key Toy.os) toy_chess_opens).
  apply toy_stranger; unfold michael, daniel; discriminate.
Defined.

(** X4. Signing up an email that is not among the (decrypted) participants
    of an existing activity succeeds and puts one token at the end of that
    activity's list, after the tokens that were there, in their order; the
    token opens to the email. *)
Theorem signup_of_absent_email (P : Primitives) (w : World) (a x : string)
    (rec : ActivityRecord) (ps0 : list string) :
  lawful P -> roster w !! a = Some rec ->
  mapM (open_token P (fernet w)) (r_participants rec) = Some ps0 ->
  x ∉ ps0 ->
  exists w' token,
    run (signup_for_activity P a x) w
      = (Returns ("Signed up " +:+ x +:+ " for " +:+ a), w') /\
    roster w' !! a = Some (with_participants (r_participants rec ++ [token]) rec) /\
    open_token P (fernet w') token = Some x.
Proof.
  intros HP Hrec Hopen Hx.
  destruct (signup_stranger P HP w a x rec ps0 Hrec Hopen Hx) as (w' & Hrun & Hr & Hf & _).
  exists w', (token_at P (fernet w) (env w) x).
  split; [done|]. split; [done|]. rewrite Hf. by apply open_token_at.
Qed.

Lemma signup_of_absent_email_witness :
  exists w' token,
    run (signup_for_activity Toy.primitives "Chess Club" "new@student.edu") Toy.world
      = (Returns "Signed up new@student.edu for Chess Club", w') /\
    roster w' !! "Chess Club"
      = Some (with_participants
                ([token_at Toy.primitives Toy.key Toy.os michael;
                  token_at Toy.primitives Toy.key (advance Toy.os) daniel] ++ [token])
                {| r_description := "Learn strategies and compete in chess tournaments";
                   r_schedule := "Fridays, 3:30 PM - 5:00 PM";
                   r_max_participants := 12;
                   r_participants :=
                     [token_at Toy.primitives Toy.key Toy.os michael;
                      token_at Toy.primitives Toy.key (advance Toy.os) daniel] |}) /\
    open_token Toy.primitives (fernet w') token = Some "new@student.edu".
Proof.
  apply (signup_of_absent_email Toy.primitives Toy.world "Chess Club"
           "new@student.edu" _ [michael; daniel]
           Toy_facts.primitives_lawful
           (chess_club_seed Toy.primitives Toy.key Toy.os) toy_chess_opens).
  apply toy_stranger; unfold michael, daniel; discriminate.
Defined.

Section Served.
Context (P : Primitives).

Lemma handled_roster (w w' : World) (r : request) (msg : string) :
  wf w -> run (handle P r) w = (Returns msg, w') ->
  exists rec ps',
    roster w !! target r = Some rec /\
    roster w' = <[target r := with_participants ps' rec]> (roster w) /\
    fernet w' = fernet w /\ env w' = advance (env w).
Proof.
  intros Hwf Hrun.
  destruct (handled _ _ _ _ _ Hrun) as (d & info & ps & ps' & Ha & Hd & Hl & -> & _).
  destruct Hwf as [Hok Hsep]. destruct (Hok _ _ Ha) as [rec Hrec].
  exists rec, ps'. split; [|split; [|done]].
  - unfold roster, view. by rewrite lookup_omap, Ha.
  - by apply (roster_update w (target r) d info rec ps').
Qed.

Lemma failed_roster (w w' : World) (r : request) (e : exn) :
  run (handle P r) w = (Raises e, w') ->
  roster w' = roster w /\ fernet w' = fernet w.
Proof.
  intros Hrun. pose proof (failed_request _ _ _ _ _ Hrun) as Hst.
  unfold stored in Hst. injection Hst as Ha Hd Hl Hf.
  split; [|done]. unfold roster, view, deref. by rewrite Ha, Hd, Hl.
Qed.

Lemma reachable_wf (f : Fernet.t) (e : Env) (w : World) :
  reachable P f e w -> wf w /\ fernet w = f.
Proof.
  induction 1 as [|w r Hreach [IHwf IHf]].
  - destruct (startup_spec P f e) as (H1 & H2 & _). exact (conj H1 H2).
  - split; [exact (wf_handle P w r IHwf)|].
    destruct (run (handle P r) w) as [[msg|ex] w'] eqn:Hrun; cbn [snd].
    + destruct (handled_roster _ _ _ _ IHwf Hrun) as (_ & _ & _ & _ & Hf & _). congruence.
    + destruct (failed_roster _ _ _ _ Hrun) as [_ Hf]. congruence.
Qed.

Lemma reachable_valid (HP : lawful P) (f : Fernet.t) (e : Env) (w : World) :
  reachable P f e w -> valid P w.
Proof.
  induction 1 as [|w r Hreach IH].
  - exact (valid_startup P HP f e).
  - apply valid_handle; [exact HP| |exact IH]. exact (proj1 (reachable_wf f e w Hreach)).
Qed.
End Served.

(** X5. After a successful signup of an absent email the listing shows, for
    that activity, the emails it showed before followed by the new one, and
    for every other activity what it showed before. *)
Theorem listing_after_signup (P : Primitives) (w : World) (a x : string)
    (rec : ActivityRecord) (ps0 : list string) :
  lawful P -> wf w -> valid P w -> roster w !! a = Some rec ->
  mapM (open_token P (fernet w)) (r_participants rec) = Some ps0 ->
  x ∉ ps0 ->
  exists m w1 r w2,
    run (signup_for_activity P a x) w = (Returns m, w1) /\
    run (get_activities P) w1 = (Returns r, w2) /\
    view w2 r = <[a := with_participants (ps0 ++ [x]) rec]>
                  (omap (plain P (fernet w)) (roster w)).
Proof.
  intros HP Hwf Hval Hrec Hopen Hx.
  destruct (roster_Some _ _ _ Hrec) as (d & info & Ha & Hd & Hl & Hdr).
  set (t := token_at P (fernet w) (env w) x).
  set (w1 := with_lists (<[participants info := r_participants rec ++ [t]]> (lists w))
               (settled w)).
  assert (Hrun : run (signup_for_activity P a x) w
            = (Returns ("Signed up " +:+ x +:+ " for " +:+ a), w1)).
  { rewrite (run_signup P _ _ _ d info _ Ha Hd Hl).
    rewrite bool_decide_eq_false_2; [reflexivity|]. by eapply sealed_not_among. }
  pose proof (roster_update w a d info rec (r_participants rec ++ [t]) Hwf Ha Hd Hdr)
    as Hr1.
  fold w1 in Hr1.
  assert (Hwf1 : wf w1).
  { pose proof (wf_handle P w (Signup a x) Hwf) as H. cbn [handle] in H.
    by rewrite Hrun in H. }
  assert (Hval1 : valid P w1).
  { pose proof (valid_handle P HP w (Signup a x) Hwf Hval) as H. cbn [handle] in H.
    by rewrite Hrun in H. }
  destruct (listing_valid P w1 Hwf1 Hval1) as (r & w2 & Hlist & Hview).
  exists ("Signed up " +:+ x +:+ " for " +:+ a), w1, r, w2.
  split; [exact Hrun|]. split; [exact Hlist|]. rewrite Hview, Hr1.
  change (fernet w1) with (fernet w).
  apply omap_insert_Some.
  unfold plain. cbn [with_participants r_participants].
  assert (Hopen1 : mapM (open_token P (fernet w)) (r_participants rec ++ [t])
            = Some (ps0 ++ [x])).
  { apply mapM_Some_2, Forall2_app; [by apply mapM_Some_1|].
    constructor; [|constructor]. unfold t. by rewrite open_token_at. }
  by rewrite Hopen1.
Qed.

Lemma listing_after_signup_witness :
  exists m w1 r w2,
    run (signup_for_activity Toy.primitives "Chess Club" "new@student.edu") Toy.world
      = (Returns m, w1) /\
    run (get_activities Toy.primitives) w1 = (Returns r, w2) /\
    view w2 r =
      <["Chess Club" :=
          with_participants ([michael; daniel] ++ ["new@student.edu"])
            {| r_description := "Learn strategies and compete in chess tournaments";
               r_schedule := "Fridays, 3:30 PM - 5:00 PM";
               r_max_participants := 12;
               r_participants :=
                 [token_at Toy.primitives Toy.key Toy.os michael;
                  token_at Toy.primitives Toy.key (advance Toy.os) daniel] |}]>
        (omap (plain Toy.primitives (fernet Toy.world)) (roster Toy.world)).
Proof.
  apply (listing_after_signup Toy.primitives Toy.world "Chess Club" "new@student.edu"
           _ [michael; daniel] Toy_facts.primitives_lawful toy_world_wf
           (valid_startup Toy.primitives Toy_facts.primitives_lawful Toy.key Toy.os)
           (chess_club_seed Toy.primitives Toy.key Toy.os) toy_chess_opens).
  apply toy_stranger; unfold michael, daniel; discriminate.
Defined.

(** X6. In every world reached from start-up by signup and unregister
    requests the listing succeeds, has one entry per activity, and shows for
    each activity the decryption of its stored tokens, in their order. *)
Theorem listing_succeeds_when_reachable (P : Primitives) (f : Fernet.t) (e : Env)
    (w : World) :
  lawful P -> reachable P f e w ->
  exists r w',
    run (get_activities P) w = (Returns r, w') /\
    dom r = dom (activities w) /\
    view w' r = omap (plain P f) (roster w) /\
    dom (view w' r) = dom (roster w).
Proof.
  intros HP Hreach.
  destruct (reachable_wf P f e w Hreach) as [Hwf Hf].
  pose proof (reachable_valid P HP f e w Hreach) as Hval.
  destruct (listing_valid P w Hwf Hval) as (r & w' & Hrun & Hview).
  exists r, w'. split; [done|].
  destruct (listing P _ _ _ Hwf Hrun) as (_ & _ & _ & Hdom & _).
  split; [done|]. rewrite Hview, Hf. split; [done|].
  apply set_eq. intros name. rewrite !elem_of_dom, lookup_omap.
  destruct (roster w !! name) as [rec|] eqn:Hrec; cbn [mbind option_bind].
  - destruct (Hval _ _ Hrec) as [p Hp]. rewrite Hf in Hp. rewrite Hp. split; by eauto.
  - split; by intros [? ?].
Qed.

Lemma listing_succeeds_when_reachable_witness :
  exists r w',
    run (get_activities Toy.primitives) Toy.world = (Returns r, w') /\
    dom r = dom (activities Toy.world) /\
    view w' r = omap (plain Toy.primitives Toy.key) (roster Toy.world) /\
    dom (view w' r) = dom (roster Toy.world).
Proof.
  apply (listing_succeeds_when_reachable Toy.primitives Toy.key Toy.os Toy.world).
  - apply Toy_facts.primitives_lawful.
  - apply reach_startup.
Defined.





Lemma remove_first_None_inv (x : string) (l : list string) :
  remove_first x l = None -> x ∉ l.
Proof.
  induction l as [|y l IH]; [intros _ []%elem_of_nil|].
  cbn [remove_first]. case_bool_decide as Hy; [discriminate|].
  destruct (remove_first x l); [discriminate|]. intros _.
  apply not_elem_of_cons. split; [congruence|by apply IH].
Qed.

(** X8. In a world without dangling references, the only exceptions signup
    and unregister raise are the three HTTP errors of the source: 404 for an
    unknown activity, 400 when the resealed token is (signup) or is not
    (unregister) in the list.  In particular [list.remove] never raises
    ValueError: the membership test before it has already answered 400. *)
Theorem handlers_raise_only_http_errors (P : Primitives) (w w' : World)
    (r : request) (e : exn) :
  wf w -> run (handle P r) w = (Raises e, w') ->
  (e = HTTPException 404 "Activity not found" /\ activities w !! target r = None) \/
  (exists rec, roster w !! target r = Some rec /\
     match r with
     | Signup _ _ =>
         e = HTTPException 400 "Student is already signed up" /\
         sealed P r w ∈ r_participants rec
     | Unregister _ _ =>
         e = HTTPException 400 "Student is not signed up for this activity" /\
         sealed P r w ∉ r_participants rec
     end).
Proof.
  intros [Hok _] Hrun.
  destruct (activities w !! target r) as [d|] eqn:Ha.
  - right. destruct (Hok _ _ Ha) as [rec Hrec].
    destruct (deref_Some _ _ _ Hrec) as (info & Hd & Hl & _).
    exists rec. split; [unfold roster, view; by rewrite lookup_omap, Ha|].
    destruct r as [a x|a x]; cbn [handle target sealed] in *.
    + rewrite (run_signup P _ _ _ d info _ Ha Hd Hl) in Hrun.
      case_bool_decide; [|discriminate]. by injection Hrun as <- _.
    + rewrite (run_unregister P _ _ _ d info _ Ha Hd Hl) in Hrun.
      destruct (remove_first _ _) eqn:Hrm; [discriminate|].
      injection Hrun as <- _. split; [done|]. by apply remove_first_None_inv.
  - left. rewrite (unknown_activity P w r Ha) in Hrun. by injection Hrun as <- _.
Qed.

Lemma handlers_raise_only_http_errors_witness :
  (HTTPException 400 "Student is not signed up for this activity"
     = HTTPException 404 "Activity not found" /\
   activities Toy.world !! "Chess Club" = None) \/
  (exists rec, roster Toy.world !! "Chess Club" = Some rec /\
     HTTPException 400 "Student is not signed up for this activity"
       = HTTPException 400 "Student is not signed up for this activity" /\
     token_at Toy.primitives (fernet Toy.world) (env Toy.world) "nobody@mergington.edu"
       ∉ r_participants rec).
Proof.
  apply (handlers_raise_only_http_errors Toy.primitives Toy.world
           (settled Toy.world) (Unregister "Chess Club" "nobody@mergington.edu")
           (HTTPException 400 "Student is not signed up for this activity")
           toy_world_wf).
  apply (withdraw_stranger Toy.primitives Toy_facts.primitives_lawful Toy.world
           "Chess Club" "nobody@mergington.edu" _ [michael; daniel]
           (chess_club_seed Toy.primitives Toy.key Toy.os) toy_chess_opens).
  apply toy_stranger; unfold michael, daniel; discriminate.
Defined.

Lemma sealed_seed_metadata (P : Primitives) (f : Fernet.t) (e : Env)
    (table : list (string * (string * string * Z * list string))) :
  with_participants [] <$>
    (list_to_map (sealed_seed P f e table) : gmap string ActivityRecord)
  = with_participants [] <$> list_to_map (to_json table).
Proof.
  revert e. induction table as [|[n [[[d s] m] emails]] rest IH]; intros e.
  - done.
  - cbn [sealed_seed to_json map]. rewrite !list_to_map_cons, !fmap_insert.
    by rewrite IH.
Qed.

(** X9. Signup and unregister never add, remove or rename an activity and
    never touch a description, a schedule or a capacity: in every world
    reached from start-up the roster, participants left aside, is the seed
    table. *)
Theorem activities_and_metadata_are_fixed (P : Primitives) (f : Fernet.t) (e : Env)
    (w : World) :
  reachable P f e w ->
  with_participants [] <$> roster w = with_participants [] <$> seed_json.
Proof.
  induction 1 as [|w r Hreach IH].
  - destruct (startup_spec P f e) as (_ & _ & ->). apply sealed_seed_metadata.
  - destruct (reachable_wf P f e w Hreach) as [Hwf _].
    destruct (run (handle P r) w) as [[msg|ex] w'] eqn:Hrun; cbn [snd].
    + destruct (handled_roster P _ _ _ _ Hwf Hrun) as (rec & ps' & Hrec & -> & _).
      rewrite fmap_insert. cbn [with_participants r_description r_schedule
                                 r_max_participants].
      rewrite <- IH. apply insert_id. by rewrite lookup_fmap, Hrec.
    + destruct (failed_roster P _ _ _ _ Hrun) as [-> _]. exact IH.
Qed.

Lemma activities_and_metadata_are_fixed_witness :
  with_participants [] <$>
    roster (snd (run (handle Toy.primitives (Signup "Chess Club" "new@student.edu"))
                   Toy.world))
  = with_participants [] <$> seed_json.
Proof.
  apply (activities_and_metadata_are_fixed Toy.primitives Toy.key Toy.os).
  apply reach_request. apply reach_startup.
Defined.

Section Repeats.
Context (P : Primitives) (HP : lawful P).

Lemma token_repeats (f : Fernet.t) (e : Env) (x : string) :
  clock e (S (reads e)) = clock e (reads e) ->
  next_iv (advance e) = next_iv e ->
  token_at P f (advance e) x = token_at P f e x.
Proof.
  intros Hc Hiv. unfold token_at. rewrite Hiv.
  change (clock (advance e) (reads (advance e))) with (clock e (S (reads e))).
  by rewrite Hc.
Qed.

Lemma remove_first_snoc (x : string) (l : list string) :
  x ∉ l -> remove_first x (l ++ [x]) = Some l.
Proof.
  induction l as [|y l IH]; intros Hx.
  - cbn. by rewrite bool_decide_eq_true_2.
  - apply not_elem_of_cons in Hx as [Hne Hx]. cbn [app remove_first].
    rewrite bool_decide_eq_false_2 by done. by rewrite IH.
Qed.

Lemma with_participants_same (rec : ActivityRecord) (v : list string) :
  with_participants (r_participants rec) (with_participants v rec) = rec.
Proof. by destruct rec. Qed.

Lemma signup_then_same_token (w : World) (a x : string) (rec : ActivityRecord)
    (ps0 : list string) :
  roster w !! a = Some rec ->
  mapM (open_token P (fernet w)) (r_participants rec) = Some ps0 ->
  x ∉ ps0 ->
  clock (env w) (S (reads (env w))) = clock (env w) (reads (env w)) ->
  next_iv (advance (env w)) = next_iv (env w) ->
  exists w1 d info t,
    run (signup_for_activity P a x) w
      = (Returns ("Signed up " +:+ x +:+ " for " +:+ a), w1) /\
    activities w1 !! a = Some d /\ dicts w1 !! d = Some info /\
    lists w1 !! participants info = Some (r_participants rec ++ [t]) /\
    deref w1 d = Some (with_participants (r_participants rec ++ [t]) rec) /\
    (t ∉ r_participants rec) /\
    token_at P (fernet w1) (env w1) x = t.
Proof.
  intros Hrec Hopen Hx Hc Hiv.
  destruct (roster_Some _ _ _ Hrec) as (d & info & Ha & Hd & Hl & Hdr).
  set (t := token_at P (fernet w) (env w) x).
  assert (Ht : t ∉ r_participants rec) by (by eapply sealed_not_among).
  exists (with_lists (<[participants info := r_participants rec ++ [t]]> (lists w))
            (settled w)), d, info, t.
  split; [|split; [exact Ha|split; [exact Hd|split; [|split; [|split; [exact Ht|]]]]]].
  - rewrite (run_signup P _ _ _ d info _ Ha Hd Hl).
    by rewrite bool_decide_eq_false_2.
  - cbn [lists with_lists]. apply list_lookup_insert_eq. by eapply lookup_lt_Some.
  - by rewrite (deref_with_lists_eq _ _ _ _ _ Hd Hl), Hdr.
  - by apply token_repeats.
Qed.
End Repeats.

(** X10. When the next call of the cipher gets the same clock reading and
    the same 16 bytes as the last one, unregister finds the token that the
    signup before it stored: it succeeds, removes that token and leaves the
    participant list as it was before the signup. *)
Theorem withdraw_restores_when_draws_repeat (P : Primitives) (w : World)
    (a x : string) (rec : ActivityRecord) (ps0 : list string) :
  lawful P -> roster w !! a = Some rec ->
  mapM (open_token P (fernet w)) (r_participants rec) = Some ps0 ->
  x ∉ ps0 ->
  clock (env w) (S (reads (env w))) = clock (env w) (reads (env w)) ->
  next_iv (advance (env w)) = next_iv (env w) ->
  exists m1 w1 w2,
    run (signup_for_activity P a x) w = (Returns m1, w1) /\
    run (unregister_from_activity P a x) w1
      = (Returns ("Unregistered " +:+ x +:+ " from " +:+ a), w2) /\
    roster w2 !! a = Some rec.
Proof.
  intros HP Hrec Hopen Hx Hc Hiv.
  destruct (signup_then_same_token P HP w a x rec ps0 Hrec Hopen Hx Hc Hiv)
    as (w1 & d & info & t & Hrun & Ha & Hd & Hl & Hdr & Ht & Htok).
  eexists _, w1, _. split; [exact Hrun|]. split.
  - rewrite (run_unregister P _ _ _ d info _ Ha Hd Hl), Htok.
    by rewrite remove_first_snoc.
  - rewrite (roster_update_self w1 a d info _ _ _ Ha Hd Hl Hdr).
    by rewrite with_participants_same.
Qed.

Lemma frozen_chess_opens :
  mapM (open_token Toy.primitives
          (fernet (startup Toy.primitives Toy.key Toy.frozen_os)))
    [token_at Toy.primitives Toy.key Toy.frozen_os michael;
     token_at Toy.primitives Toy.key (advance Toy.frozen_os) daniel]
  = Some [michael; daniel].
Proof.
  cbn [mapM].
  change (fernet (startup Toy.primitives Toy.key Toy.frozen_os)) with Toy.key.
  rewrite !open_token_at by apply Toy_facts.primitives_lawful. done.
Qed.

Lemma withdraw_restores_when_draws_repeat_witness :
  exists m1 w1 w2,
    run (signup_for_activity Toy.primitives "Chess Club" "new@student.edu")
        (startup Toy.primitives Toy.key Toy.frozen_os) = (Returns m1, w1) /\
    run (unregister_from_activity Toy.primitives "Chess Club" "new@student.edu") w1
      = (Returns "Unregistered new@student.edu from Chess Club", w2) /\
    roster w2 !! "Chess Club" =
      Some {| r_description := "Learn strategies and compete in chess tournaments";
              r_schedule := "Fridays, 3:30 PM - 5:00 PM";
              r_max_participants := 12;
              r_participants :=
                [token_at Toy.primitives Toy.key Toy.frozen_os michael;
                 token_at Toy.primitives Toy.key (advance Toy.frozen_os) daniel] |}.
Proof.
  apply (withdraw_restores_when_draws_repeat Toy.primitives
           (startup Toy.primitives Toy.key Toy.frozen_os) "Chess Club"
           "new@student.edu" _ [michael; daniel] Toy_facts.primitives_lawful
           (chess_club_seed Toy.primitives Toy.key Toy.frozen_os) frozen_chess_opens).
  - apply toy_stranger; unfold michael, daniel; discriminate.
  - vm_compute. reflexivity.
  - vm_compute. reflexivity.
Defined.

(** X11. Under the same condition a second signup of the same email is
    refused with 400 "Student is already signed up", and the roster stays
    as the first signup left it. *)
Theorem second_signup_refused_when_draws_repeat (P : Primitives) (w : World)
    (a x : string) (rec : ActivityRecord) (ps0 : list string) :
  lawful P -> roster w !! a = Some rec ->
  mapM (open_token P (fernet w)) (r_participants rec) = Some ps0 ->
  x ∉ ps0 ->
  clock (env w) (S (reads (env w))) = clock (env w) (reads (env w)) ->
  next_iv (advance (env w)) = next_iv (env w) ->
  exists m1 w1 w2,
    run (signup_for_activity P a x) w = (Returns m1, w1) /\
    run (signup_for_activity P a x) w1
      = (Raises (HTTPException 400 "Student is already signed up"), w2) /\
    roster w2 = roster w1.
Proof.
  intros HP Hrec Hopen Hx Hc Hiv.
  destruct (signup_then_same_token P HP w a x rec ps0 Hrec Hopen Hx Hc Hiv)
    as (w1 & d & info & t & Hrun & Ha & Hd & Hl & Hdr & Ht & Htok).
  exists ("Signed up " +:+ x +:+ " for " +:+ a), w1, (settled w1).
  split; [exact Hrun|]. split; [|apply roster_settled].
  rewrite (run_signup P _ _ _ d info _ Ha Hd Hl), Htok.
  rewrite bool_decide_eq_true_2; [done|]. apply elem_of_app. right. left.
Qed.

Lemma second_signup_refused_when_draws_repeat_witness :
  exists m1 w1 w2,
    run (signup_for_activity Toy.primitives "Chess Club" "new@student.edu")
        (startup Toy.primitives Toy.key Toy.frozen_os) = (Returns m1, w1) /\
    run (signup_for_activity Toy.primitives "Chess Club" "new@student.edu") w1
      = (Raises (HTTPException 400 "Student is already signed up"), w2) /\
    roster w2 = roster w1.
Proof.
  apply (second_signup_refused_when_draws_repeat Toy.primitives
           (startup Toy.primitives Toy.key Toy.frozen_os) "Chess Club"
           "new@student.edu" _ [michael; daniel] Toy_facts.primitives_lawful
           (chess_club_seed Toy.primitives Toy.key Toy.frozen_os) frozen_chess_opens).
  - apply toy_stranger; unfold michael, daniel; discriminate.
  - vm_compute. reflexivity.
  - vm_compute. reflexivity.
Defined.

Lemma fernet_new_encoded (raw : list byte) :
  Fernet.new (urlsafe_b64encode raw) =
  if bool_decide (length raw = 32)
  then Some {| Fernet.signing_key := take 16 raw; Fernet.encryption_key := drop 16 raw |}
  else None.
Proof. unfold Fernet.new. by rewrite urlsafe_b64_roundtrip. Qed.

Lemma encoded_nonempty (raw : list byte) :
  raw <> [] -> decode (urlsafe_b64encode raw) <> "".
Proof.
  destruct raw as [|a [|b [|c r]]]; [done| | |]; intros _;
    cbn [urlsafe_b64encode decode string_of_list_byte]; discriminate.
Qed.

(** X12. With HSMS_ENCRYPTION_KEY unset, or set to the empty string, loading
    the module always succeeds: the key is generated from the next 32 bytes
    of entropy (signing key the first 16, encryption key the last 16), and
    the roster is seeded under it. *)
Theorem boot_generates_a_key (P : Primitives) (e : Env) :
  let raw := map (fun i => entropy e (drawn e + i)) (seq 0 32) in
  boot P None e =
    Some (startup P {| Fernet.signing_key := take 16 raw;
                       Fernet.encryption_key := drop 16 raw |}
            {| clock := clock e; entropy := entropy e;
               reads := reads e; drawn := drawn e + 32 |}) /\
  boot P (Some "") e = boot P None e.
Proof.
  intros raw. split; [|reflexivity].
  unfold boot, encryption_key_of, generate_key. fold raw.
  rewrite fernet_new_encoded.
  rewrite bool_decide_eq_true_2; [reflexivity|].
  unfold raw. by rewrite length_map, length_seq.
Qed.

(** X13. With HSMS_ENCRYPTION_KEY set to the URL-safe base64 encoding of a
    nonempty byte string, the module loads exactly when that string has 32
    bytes; it then uses those bytes as the key and draws no entropy for
    it.  Any other length makes [Fernet(ENCRYPTION_KEY)] raise. *)
Theorem boot_with_supplied_key (P : Primitives) (raw : list byte) (e : Env) :
  raw <> [] ->
  boot P (Some (decode (urlsafe_b64encode raw))) e =
  if bool_decide (length raw = 32)
  then Some (startup P {| Fernet.signing_key := take 16 raw;
                          Fernet.encryption_key := drop 16 raw |} e)
  else None.
Proof.
  intros Hraw. unfold boot, encryption_key_of.
  rewrite bool_decide_eq_false_2 by (by apply encoded_nonempty).
  rewrite encode_decode, fernet_new_encoded.
  by case_bool_decide.
Qed.

Lemma boot_with_supplied_key_witness :
  boot Toy.primitives
    (Some (decode (urlsafe_b64encode (encode "0123456789abcdeffedcba9876543210"))))
    Toy.os =
  if bool_decide (length (encode "0123456789abcdeffedcba9876543210") = 32)
  then Some (startup Toy.primitives
               {| Fernet.signing_key := take 16 (encode "0123456789abcdeffedcba9876543210");
                  Fernet.encryption_key :=
                    drop 16 (encode "0123456789abcdeffedcba9876543210") |} Toy.os)
  else None.
Proof.
  apply (boot_with_supplied_key Toy.primitives
           (encode "0123456789abcdeffedcba9876543210") Toy.os).
  vm_compute. discriminate.
Defined.

Section Distinct_tokens.
Context (P : Primitives) (HP : lawful P).

Lemma seal_all_NoDup (f : Fernet.t) (e : Env) (emails : list string) :
  NoDup emails -> NoDup (seal_all P f e emails).
Proof.
  revert e. induction emails as [|x rest IH]; intros e Hnd; [constructor|].
  apply NoDup_cons in Hnd as [Hx Hnd]. cbn [seal_all]. apply NoDup_cons.
  split; [|by apply IH].
  eapply sealed_not_among; [exact HP| |exact Hx]. apply open_seal_all. exact HP.
Qed.

Lemma sealed_seed_NoDup (f : Fernet.t) (e : Env)
    (table : list (string * (string * string * Z * list string)))
    (name : string) (rec : ActivityRecord) :
  Forall (fun entry => NoDup entry.2.2) table ->
  (name, rec) ∈ sealed_seed P f e table -> NoDup (r_participants rec).
Proof.
  revert e. induction table as [|[n [[[d s] m] emails]] rest IH]; intros e Hall.
  - intros []%elem_of_nil.
  - apply Forall_cons in Hall as [Hhd Hall]. cbn [sealed_seed].
    intros [[= -> ->]|Hin]%elem_of_cons; [|by eapply IH].
    cbn [r_participants]. by apply seal_all_NoDup.
Qed.

Lemma remove_first_NoDup (x : string) (l rest : list string) :
  remove_first x l = Some rest -> NoDup l -> NoDup rest.
Proof.
  revert rest. induction l as [|y l IH]; intros rest; cbn [remove_first]; [done|].
  intros Hrm [Hy Hnd]%NoDup_cons. case_bool_decide.
  - by injection Hrm as <-.
  - destruct (remove_first x l) as [r|] eqn:Hr; [|done]. cbn in Hrm.
    injection Hrm as <-. apply NoDup_cons. split; [|by apply IH].
    intros Hin. apply Hy. by apply (remove_first_sub P HP _ _ _ Hr).
Qed.
End Distinct_tokens.

Lemma seed_emails_NoDup : Forall (fun entry => NoDup entry.2.2) seed.
Proof.
  apply (bool_decide_unpack (Forall (fun entry => NoDup entry.2.2) seed)).
  vm_compute. exact I.
Qed.

(** X14. The membership test of signup keeps every participant list free of
    repeated tokens: in every world reached from start-up, no activity
    stores the same token twice. *)
Theorem stored_tokens_are_distinct (P : Primitives) (f : Fernet.t) (e : Env)
    (w : World) (name : string) (rec : ActivityRecord) :
  lawful P -> reachable P f e w -> roster w !! name = Some rec ->
  NoDup (r_participants rec).
Proof.
  intros HP Hreach. revert name rec.
  induction Hreach as [|w r Hreach IH]; intros name rec Hrec.
  - destruct (startup_spec P f e) as (_ & _ & Hr). rewrite Hr in Hrec.
    apply elem_of_list_to_map_2 in Hrec.
    exact (sealed_seed_NoDup P HP f e seed name rec seed_emails_NoDup Hrec).
  - destruct (reachable_wf P f e w Hreach) as [Hwf _].
    destruct (run (handle P r) w) as [[msg|ex] w'] eqn:Hrun; cbn [snd] in Hrec.
    + destruct (handled P _ _ _ _ Hrun)
        as (d & info & ps & ps' & Ha & Hd & Hl & Hw' & Hr).
      destruct (handled_roster P _ _ _ _ Hwf Hrun) as (rec0 & ps'' & Hrec0 & Hr' & _).
      destruct (roster_Some _ _ _ Hrec0) as (d0 & info0 & Ha0 & Hd0 & Hl0 & _).
      assert (d0 = d) as -> by congruence.
      assert (info0 = info) as -> by congruence.
      assert (Hps : r_participants rec0 = ps) by congruence.
      pose proof (IH _ _ Hrec0) as Hnd0. rewrite Hps in Hnd0.
      destruct (decide (name = target r)) as [->|Hne].
      * subst w'. rewrite (roster_update w (target r) d info rec0 ps' Hwf Ha Hd) in Hrec.
        2:{ destruct Hwf as [Hok _]. destruct (Hok _ _ Ha) as [r1 Hr1].
            unfold roster, view in Hrec0. rewrite lookup_omap, Ha in Hrec0.
            cbn [mbind option_bind] in Hrec0. exact Hrec0. }
        rewrite lookup_insert_eq in Hrec. injection Hrec as <-.
        cbn [with_participants r_participants].
        destruct r as [a x|a x]; cbn [sealed] in Hr.
        -- destruct Hr as [Hnot ->]. apply NoDup_app. split; [done|].
           split; [|apply NoDup_singleton].
           intros y Hy Hy'%list_elem_of_singleton. by subst y.
        -- destruct Hr as [_ Hrm]. by eapply remove_first_NoDup.
      * rewrite Hr', lookup_insert_ne in Hrec by done. by eapply IH.
    + destruct (failed_roster P _ _ _ _ Hrun) as [Hr _]. rewrite Hr in Hrec.
      by eapply IH.
Qed.

Lemma stored_tokens_are_distinct_witness :
  NoDup [token_at Toy.primitives Toy.key Toy.os michael;
         token_at Toy.primitives Toy.key (advance Toy.os) daniel].
Proof.
  apply (stored_tokens_are_distinct Toy.primitives Toy.key Toy.os Toy.world "Chess Club"
           _ Toy_facts.primitives_lawful (reach_startup _ _ _)
           (chess_club_seed Toy.primitives Toy.key Toy.os)).
Defined.
